(** * local-notebook: the retrieval-augmented chat pipeline

    A shallow embedding of the backend services
    ([services/documentProcessor.js], [services/llmService.js],
    [services/vectorService.js], [routes/chat.js]) and the properties of
    the chunker, the vector search, the ingestion run, the provider
    adapters and the chat route. *)

From Stdlib Require Import ZArith NArith QArith List Lia Permutation Sorted.
From stdpp Require Import base option list gmap strings.

Close Scope Q_scope.
Open Scope Z_scope.

(** ** JavaScript strings

    A JavaScript string is a sequence of UTF-16 code units; [s.length]
    counts code units. *)
Module JS.

Definition jschar := N.
Definition jsstring := list N.

(** A literal of the source, code unit by code unit. *)
Definition js (s : string) : jsstring :=
  map Ascii.N_of_ascii (String.list_ascii_of_string s).

Definition LF : jschar := 10%N.

(** [s.length] *)
Definition str_length (s : jsstring) : Z := Z.of_nat (length s).

(** Truthiness of a string: only the empty string is falsy. *)
Definition truthy_str (s : jsstring) : bool :=
  match s with [] => false | _ :: _ => true end.

(** The class [\s] of a regular expression (and the characters [trim]
    strips): WhiteSpace and LineTerminator of ECMAScript. *)
Definition is_space (c : jschar) : bool :=
  existsb (N.eqb c)
    [9; 10; 11; 12; 13; 32; 160; 5760; 8232; 8233; 8239; 8287; 12288; 65279]%N
  || ((8192 <=? c)%N && (c <=? 8202)%N).

Definition all_space (s : jsstring) : bool := forallb is_space s.

(** [s.substring(a, b)]: both indices are clamped into [0, s.length] and
    swapped when [a > b]. *)
Definition clamp (len x : Z) : Z := Z.min (Z.max x 0) len.

Definition substring (s : jsstring) (a b : Z) : jsstring :=
  let len := str_length s in
  let a' := clamp len a in
  let b' := clamp len b in
  let from := Z.min a' b' in
  let to := Z.max a' b' in
  take (Z.to_nat (to - from)) (drop (Z.to_nat from) s).

(** *** [text.split(/\n\s*\n/)]

    [space_run s] is the length of the longest prefix of [s] made of [\s]
    characters; [last_LF n s] is the position just after the last line
    feed among the first [n] characters of [s].  The greedy [\s*] followed
    by [\n] matches up to that last line feed of the whitespace run. *)
Fixpoint space_run (s : jsstring) : nat :=
  match s with
  | c :: s' => if is_space c then S (space_run s') else O
  | [] => O
  end.

Fixpoint last_LF (n : nat) (s : jsstring) : option nat :=
  match n, s with
  | S n', c :: s' =>
      match last_LF n' s' with
      | Some k => Some (S k)
      | None => if (c =? LF)%N then Some 1%nat else None
      end
  | _, _ => None
  end.

(** Length of the match of [/\n\s*\n/] anchored at the head of [s]. *)
Definition match_blank (s : jsstring) : option nat :=
  match s with
  | c :: s' =>
      if (c =? LF)%N then S <$> last_LF (space_run s') s' else None
  | [] => None
  end.

(** The split loop: [cur] holds (reversed) the characters since the end of
    the previous separator, [skip] the characters of the separator just
    matched that are still to be passed over. *)
Fixpoint split_go (skip : nat) (cur : jsstring) (s : jsstring)
  : list jsstring :=
  match s with
  | [] => [reverse cur]
  | c :: s' =>
      match skip with
      | S k => split_go k cur s'
      | O =>
          match match_blank (c :: s') with
          | Some n => reverse cur :: split_go (pred n) [] s'
          | None => split_go O (c :: cur) s'
          end
      end
  end.

Definition split_blank (s : jsstring) : list jsstring := split_go O [] s.

End JS.

(** ** The chunker ([splitTextIntoChunks], documentProcessor.js) *)
Module Chunker.
Import JS.

(** The sliding window over an oversized paragraph:
    [while (i < paragraph.length) { push(substring(i, i + max)); i += max - overlap }].
    The loop is bounded by [fuel]; [None] means it is still running. *)
Fixpoint slide (fuel : nat) (maxChunkSize overlap : Z) (paragraph : jsstring)
  (i : Z) : option (list jsstring) :=
  if i <? str_length paragraph then
    match fuel with
    | O => None
    | S f =>
        cons (substring paragraph i (i + maxChunkSize))
          <$> slide f maxChunkSize overlap paragraph
                (i + (maxChunkSize - overlap))
    end
  else Some [].

(** The [for (const paragraph of paragraphs)] loop, on the pair
    [(chunks, currentChunk)]. *)
Fixpoint for_paragraphs (fuel : nat) (maxChunkSize overlap : Z)
  (paragraphs : list jsstring) (chunks : list jsstring)
  (currentChunk : jsstring) : option (list jsstring * jsstring) :=
  match paragraphs with
  | [] => Some (chunks, currentChunk)
  | paragraph :: rest =>
      if str_length paragraph >? maxChunkSize then
        let chunks1 :=
          if truthy_str currentChunk then chunks ++ [currentChunk]
          else chunks in
        match slide fuel maxChunkSize overlap paragraph 0 with
        | None => None
        | Some windows =>
            for_paragraphs fuel maxChunkSize overlap rest
              (chunks1 ++ windows) []
        end
      else if str_length currentChunk + str_length paragraph >? maxChunkSize
      then
        for_paragraphs fuel maxChunkSize overlap rest
          (chunks ++ [currentChunk]) paragraph
      else
        for_paragraphs fuel maxChunkSize overlap rest chunks
          (currentChunk
             ++ ((if truthy_str currentChunk then [LF; LF] else [])
                   ++ paragraph))
  end.

Definition splitTextIntoChunks (fuel : nat) (text : jsstring)
  (maxChunkSize overlap : Z) : option (list jsstring) :=
  if str_length text <=? maxChunkSize then Some [text]
  else
    match for_paragraphs fuel maxChunkSize overlap (split_blank text) [] []
    with
    | None => None
    | Some (chunks, currentChunk) =>
        Some (if truthy_str currentChunk then chunks ++ [currentChunk]
              else chunks)
    end.

(** The defaults of the signature: [maxChunkSize = 1000, overlap = 200]. *)
Definition default_maxChunkSize : Z := 1000.
Definition default_overlap : Z := 200.

(** *** The chunker with the origin of every chunk

    The same three loops, each chunk paired with where it comes from: the
    whole text, the paragraph buffer, or the [k]-th window of an oversized
    paragraph.  [erase_origin] relates it to [splitTextIntoChunks]. *)
Inductive origin : Type :=
  | Whole
  | Buffer
  | Window (k : nat).

Fixpoint slide_traced (fuel : nat) (maxChunkSize overlap : Z)
  (paragraph : jsstring) (i : Z) (k : nat)
  : option (list (origin * jsstring)) :=
  if i <? str_length paragraph then
    match fuel with
    | O => None
    | S f =>
        cons (Window k, substring paragraph i (i + maxChunkSize))
          <$> slide_traced f maxChunkSize overlap paragraph
                (i + (maxChunkSize - overlap)) (S k)
    end
  else Some [].

Fixpoint for_paragraphs_traced (fuel : nat) (maxChunkSize overlap : Z)
  (paragraphs : list jsstring) (chunks : list (origin * jsstring))
  (currentChunk : jsstring) : option (list (origin * jsstring) * jsstring) :=
  match paragraphs with
  | [] => Some (chunks, currentChunk)
  | paragraph :: rest =>
      if str_length paragraph >? maxChunkSize then
        let chunks1 :=
          if truthy_str currentChunk then chunks ++ [(Buffer, currentChunk)]
          else chunks in
        match slide_traced fuel maxChunkSize overlap paragraph 0 O with
        | None => None
        | Some windows =>
            for_paragraphs_traced fuel maxChunkSize overlap rest
              (chunks1 ++ windows) []
        end
      else if str_length currentChunk + str_length paragraph >? maxChunkSize
      then
        for_paragraphs_traced fuel maxChunkSize overlap rest
          (chunks ++ [(Buffer, currentChunk)]) paragraph
      else
        for_paragraphs_traced fuel maxChunkSize overlap rest chunks
          (currentChunk
             ++ ((if truthy_str currentChunk then [LF; LF] else [])
                   ++ paragraph))
  end.

Definition splitTextIntoChunks_traced (fuel : nat) (text : jsstring)
  (maxChunkSize overlap : Z) : option (list (origin * jsstring)) :=
  if str_length text <=? maxChunkSize then Some [(Whole, text)]
  else
    match for_paragraphs_traced fuel maxChunkSize overlap (split_blank text)
            [] []
    with
    | None => None
    | Some (chunks, currentChunk) =>
        Some (if truthy_str currentChunk
              then chunks ++ [(Buffer, currentChunk)]
              else chunks)
    end.

(** Removing the duplicated prefix: every window of an oversized paragraph
    but its first loses its first [overlap] characters. *)
Definition remove_overlap (overlap : Z) (c : origin * jsstring) : jsstring :=
  match c.1 with
  | Window (S _) => drop (Z.to_nat overlap) c.2
  | _ => c.2
  end.

Definition rebuild (overlap : Z) (chunks : list (origin * jsstring))
  : jsstring :=
  concat (map (remove_overlap overlap) chunks).

(** [weave p0 rest]: the paragraph [p0] followed by each further paragraph
    preceded by its separator. *)
Definition weave (p0 : jsstring) (rest : list (jsstring * jsstring))
  : jsstring :=
  p0 ++ concat (map (fun sp => sp.1 ++ sp.2) rest).

(** [t] is the paragraphs [ps], in this order, with a string of whitespace
    only (possibly empty) between two consecutive ones. *)
Definition paragraphs_joined (ps : list jsstring) (t : jsstring) : Prop :=
  exists p0 rest,
    ps = p0 :: map snd rest
    /\ Forall (fun sp => all_space sp.1 = true) rest
    /\ t = weave p0 rest.

End Chunker.

Module ChunkerFacts.
Import JS Chunker.

Lemma slide_erase fuel maxc ov p : forall i k,
  (map snd <$> slide_traced fuel maxc ov p i k) = slide fuel maxc ov p i.
Proof.
  induction fuel as [|f IH]; intros i k; simpl.
  - destruct (i <? str_length p); reflexivity.
  - destruct (i <? str_length p); [|reflexivity].
    rewrite <- (IH (i + (maxc - ov)) (S k)).
    destruct (slide_traced f maxc ov p _ _); reflexivity.
Qed.

Lemma for_paragraphs_erase fuel maxc ov : forall ps tcs cur,
  (prod_map (map snd) id <$> for_paragraphs_traced fuel maxc ov ps tcs cur)
  = for_paragraphs fuel maxc ov ps (map snd tcs) cur.
Proof.
  induction ps as [|p rest IH]; intros tcs cur; simpl; [reflexivity|].
  destruct (str_length p >? maxc).
  - rewrite <- (slide_erase fuel maxc ov p 0 O).
    destruct (slide_traced fuel maxc ov p 0 0) as [ws|]; simpl; [|reflexivity].
    rewrite IH. f_equal.
    destruct (truthy_str cur); rewrite !map_app; reflexivity.
  - destruct (str_length cur + str_length p >? maxc).
    + rewrite IH, map_app. reflexivity.
    + apply IH.
Qed.

Lemma erase_origin fuel text maxc ov :
  (map snd <$> splitTextIntoChunks_traced fuel text maxc ov)
  = splitTextIntoChunks fuel text maxc ov.
Proof.
  unfold splitTextIntoChunks_traced, splitTextIntoChunks.
  destruct (str_length text <=? maxc); [reflexivity|].
  pose proof (for_paragraphs_erase fuel maxc ov (split_blank text) [] []) as E.
  simpl in E. rewrite <- E. clear E.
  destruct (for_paragraphs_traced _ _ _ _ _ _) as [[tcs cur]|]; simpl;
    [|reflexivity].
  destruct (truthy_str cur); simpl; [rewrite map_app|]; reflexivity.
Qed.

(** *** The paragraphs of [split_blank] *)

Lemma all_space_take k s : all_space s = true -> all_space (take k s) = true.
Proof.
  revert k; induction s as [|c s IH]; intros [|k]; simpl; try reflexivity.
  rewrite !andb_true_iff. intros [Hc Hs]. split; [exact Hc|apply IH, Hs].
Qed.

Lemma space_run_spec s :
  (space_run s <= length s)%nat /\ all_space (take (space_run s) s) = true.
Proof.
  induction s as [|c s [IHl IHs]]; simpl; [split; [lia|reflexivity]|].
  destruct (is_space c) eqn:Hc; simpl; [|split; [lia|reflexivity]].
  rewrite Hc. split; [lia|exact IHs].
Qed.

Lemma last_LF_bound n : forall s k,
  last_LF n s = Some k -> (1 <= k <= n)%nat /\ (k <= length s)%nat.
Proof.
  induction n as [|n IH]; intros [|c s] k; simpl; try discriminate.
  destruct (last_LF n s) as [k'|] eqn:E.
  - intros [= <-]. destruct (IH _ _ E). lia.
  - destruct (c =? LF)%N; [|discriminate]. intros [= <-]. lia.
Qed.

Lemma match_blank_spec s n :
  match_blank s = Some n ->
  (2 <= n <= length s)%nat /\ all_space (take n s) = true.
Proof.
  destruct s as [|c s]; simpl; [discriminate|].
  destruct (c =? LF)%N eqn:Hc; [|discriminate].
  destruct (last_LF (space_run s) s) as [k|] eqn:E; simpl; [|discriminate].
  intros [= <-]. destruct (last_LF_bound _ _ _ E) as [Hk Hl].
  destruct (space_run_spec s) as [_ Hs].
  split; [simpl; lia|]. simpl.
  apply N.eqb_eq in Hc. subst c. simpl.
  replace k with (Nat.min k (space_run s)) by lia.
  rewrite <- take_take. apply all_space_take, Hs.
Qed.

Lemma split_go_spec : forall s skip cur,
  (skip <= length s)%nat ->
  exists p0 rest,
    split_go skip cur s = p0 :: map snd rest
    /\ Forall (fun sp => all_space sp.1 = true) rest
    /\ reverse cur ++ drop skip s = weave p0 rest.
Proof.
  induction s as [|c s IH]; intros skip cur Hskip.
  - exists (reverse cur), []. simpl in *. rewrite drop_nil.
    unfold weave. simpl. rewrite app_nil_r. auto.
  - destruct skip as [|k].
    + cbn [split_go]. destruct (match_blank (c :: s)) as [n|] eqn:E.
      * destruct (match_blank_spec _ _ E) as [Hn Hws]. simpl in Hn.
        destruct (IH (pred n) [] ltac:(lia)) as (p0 & rest & Hs & Hf & Hw).
        exists (reverse cur), ((take n (c :: s), p0) :: rest).
        split; [simpl; rewrite Hs; reflexivity|].
        split; [constructor; [exact Hws|exact Hf]|].
        unfold weave in *. simpl in Hw. cbn [map concat fst snd].
        rewrite <- !app_assoc, <- Hw.
        destruct n as [|n']; [lia|]. simpl.
        rewrite take_drop. reflexivity.
      * destruct (IH O (c :: cur) ltac:(lia)) as (p0 & rest & Hs & Hf & Hw).
        exists p0, rest. split; [exact Hs|]. split; [exact Hf|].
        rewrite <- Hw. rewrite reverse_cons, <- app_assoc. reflexivity.
    + cbn [split_go]. simpl in Hskip.
      destruct (IH k cur ltac:(lia)) as (p0 & rest & Hs & Hf & Hw).
      exists p0, rest. auto.
Qed.

Lemma split_blank_joined text : paragraphs_joined (split_blank text) text.
Proof.
  destruct (split_go_spec text O [] ltac:(lia)) as (p0 & rest & Hs & Hf & Hw).
  exists p0, rest. auto.
Qed.

Lemma weave_length_bound p0 rest p :
  In p (p0 :: map snd rest) -> (length p <= length (weave p0 rest))%nat.
Proof.
  unfold weave. rewrite length_app. intros [<-|Hin]; [lia|].
  enough (length p <= length (concat (map (fun sp => sp.1 ++ sp.2) rest)))%nat
    by lia.
  clear p0. induction rest as [|[sep q] rest IH]; simpl in *; [tauto|].
  rewrite !length_app. destruct Hin as [<-|Hin]; [lia|].
  specialize (IH Hin). lia.
Qed.

Lemma paragraph_length_bound text p :
  In p (split_blank text) -> (length p <= length text)%nat.
Proof.
  destruct (split_blank_joined text) as (p0 & rest & Hs & _ & Hw).
  rewrite Hs, Hw. apply weave_length_bound.
Qed.

(** *** The sliding window *)

Lemma substring_window p i maxc :
  0 <= i -> 0 < maxc ->
  substring p i (i + maxc) = take (Z.to_nat maxc) (drop (Z.to_nat i) p).
Proof.
  intros Hi Hm. cbv beta zeta delta [substring clamp str_length].
  destruct (Z.le_gt_cases (Z.of_nat (length p)) i) as [Hge|Hlt].
  - rewrite drop_ge by lia. rewrite (drop_ge p) by lia.
    rewrite !take_nil. reflexivity.
  - replace (Z.to_nat (Z.min (Z.min (Z.max i 0) (Z.of_nat (length p)))
                         (Z.min (Z.max (i + maxc) 0) (Z.of_nat (length p)))))
      with (Z.to_nat i) by lia.
    destruct (Z.le_gt_cases (i + maxc) (Z.of_nat (length p))).
    + f_equal. lia.
    + rewrite !take_ge; [reflexivity| |]; rewrite length_drop; lia.
Qed.

Lemma slide_terminates maxc ov p : forall fuel i,
  ov < maxc ->
  (Z.to_nat (str_length p - i) <= fuel)%nat ->
  is_Some (slide_traced fuel maxc ov p i 0)
  /\ forall k, is_Some (slide_traced fuel maxc ov p i k).
Proof.
  intros fuel i Hov Hfuel.
  enough (forall k, is_Some (slide_traced fuel maxc ov p i k)) by auto.
  revert i Hfuel. induction fuel as [|f IH]; intros i Hfuel k; simpl.
  - destruct (Z.ltb_spec i (str_length p)); [lia|eauto].
  - destruct (Z.ltb_spec i (str_length p)); [|eauto].
    destruct (IH (i + (maxc - ov)) ltac:(lia) (S k)) as [ws ->].
    simpl. eauto.
Qed.

Lemma slide_diverges maxc ov p : forall fuel i k,
  maxc <= ov -> 0 < str_length p -> i <= 0 ->
  slide_traced fuel maxc ov p i k = None.
Proof.
  induction fuel as [|f IH]; intros i k Hov Hp Hi; simpl;
    (destruct (Z.ltb_spec i (str_length p)); [|lia]); [reflexivity|].
  rewrite IH by lia. reflexivity.
Qed.

(** The windows after the first, each without its first [overlap]
    characters, are the paragraph from [i + overlap] on. *)
Lemma rebuild_later_windows maxc ov p : forall fuel i k ws,
  0 <= ov < maxc -> 0 <= i ->
  slide_traced fuel maxc ov p i (S k) = Some ws ->
  rebuild ov ws = drop (Z.to_nat (i + ov)) p.
Proof.
  induction fuel as [|f IH]; intros i k ws Hov Hi; simpl;
    (destruct (Z.ltb_spec i (str_length p)) as [Hlt|Hge]); try discriminate.
  - intros [= <-]. unfold str_length in Hge.
    rewrite drop_ge by lia. reflexivity.
  - destruct (slide_traced f maxc ov p (i + (maxc - ov)) (S (S k)))
      as [ws'|] eqn:E; simpl; [|discriminate].
    intros [= <-]. unfold rebuild in *. cbn [map concat].
    rewrite (IH (i + (maxc - ov)) (S k) ws' Hov ltac:(lia) E).
    unfold remove_overlap. cbn [fst snd].
    rewrite substring_window by lia.
    rewrite skipn_firstn_comm, drop_drop.
    replace (Z.to_nat (i + (maxc - ov) + ov))
      with (Z.to_nat i + Z.to_nat ov + (Z.to_nat maxc - Z.to_nat ov))%nat
      by lia.
    rewrite <- (drop_drop p (Z.to_nat maxc - Z.to_nat ov)).
    rewrite take_drop. f_equal. lia.
  - intros [= <-]. unfold str_length in Hge.
    rewrite drop_ge by lia. reflexivity.
Qed.

Lemma rebuild_windows maxc ov p fuel ws :
  0 <= ov < maxc ->
  slide_traced fuel maxc ov p 0 O = Some ws ->
  rebuild ov ws = p.
Proof.
  intros Hov. destruct fuel as [|f]; simpl;
    (destruct (Z.ltb_spec 0 (str_length p)) as [Hlt|Hge]); try discriminate.
  - intros [= <-]. destruct p; [reflexivity|]. unfold str_length in Hge.
    simpl in Hge. lia.
  - destruct (slide_traced f maxc ov p (0 + (maxc - ov)) 1) as [ws'|] eqn:E;
      simpl; [|discriminate].
    intros [= <-]. unfold rebuild. cbn [map concat].
    fold (rebuild ov ws').
    rewrite (rebuild_later_windows maxc ov p f (0 + (maxc - ov)) O ws' Hov
               ltac:(lia) E).
    unfold remove_overlap. cbn [fst snd].
    rewrite (substring_window p 0 maxc) by lia. simpl.
    replace (Z.to_nat (0 + (maxc - ov) + ov)) with (Z.to_nat maxc) by lia.
    apply take_drop.
  - intros [= <-]. destruct p; [reflexivity|]. unfold str_length in Hge.
    simpl in Hge. lia.
Qed.

(** *** The paragraph loop *)

Definition glue (pairs : list (jsstring * jsstring)) : jsstring :=
  concat (map (fun sp => sp.1 ++ sp.2) pairs).

(** What the loop has built after the paragraphs [map snd pairs]. *)
Definition loop_inv (ov : Z) (pairs : list (jsstring * jsstring))
  (tcs : list (origin * jsstring)) (cur : jsstring) : Prop :=
  rebuild ov tcs ++ cur = glue pairs
  /\ Forall (fun sp => all_space sp.1 = true) pairs
  /\ match pairs with [] => True | sp :: _ => sp.1 = [] end.

Lemma rebuild_app ov a b : rebuild ov (a ++ b) = rebuild ov a ++ rebuild ov b.
Proof. unfold rebuild. rewrite map_app, concat_app. reflexivity. Qed.

Lemma rebuild_buffer ov cur : rebuild ov [(Buffer, cur)] = cur.
Proof. unfold rebuild. simpl. apply app_nil_r. Qed.

Lemma glue_snoc pairs sep p : glue (pairs ++ [(sep, p)]) = glue pairs ++ sep ++ p.
Proof.
  unfold glue. rewrite map_app, concat_app. simpl. rewrite app_nil_r.
  reflexivity.
Qed.

Lemma loop_inv_snoc ov pairs tcs cur tcs' cur' sep p :
  loop_inv ov pairs tcs cur ->
  rebuild ov tcs' ++ cur' = (rebuild ov tcs ++ cur) ++ sep ++ p ->
  all_space sep = true ->
  (cur = [] -> sep = []) ->
  loop_inv ov (pairs ++ [(sep, p)]) tcs' cur'.
Proof.
  intros (Hg & Hf & Hh) Hr Hs Hc. repeat split.
  - rewrite Hr, Hg, glue_snoc. reflexivity.
  - apply Forall_app. split; [exact Hf|]. constructor; [exact Hs|constructor].
  - destruct pairs as [|sp pairs]; simpl; [|exact Hh].
    apply Hc. unfold glue in Hg. simpl in Hg.
    apply app_eq_nil in Hg. tauto.
Qed.

Lemma for_paragraphs_inv fuel maxc ov :
  0 <= ov < maxc ->
  forall ps pairs tcs cur tcs' cur',
    loop_inv ov pairs tcs cur ->
    for_paragraphs_traced fuel maxc ov ps tcs cur = Some (tcs', cur') ->
    exists pairs',
      map snd pairs' = map snd pairs ++ ps /\ loop_inv ov pairs' tcs' cur'.
Proof.
  intros Hov. induction ps as [|p rest IH]; intros pairs tcs cur tcs' cur' Hinv.
  - simpl. intros [= <- <-]. exists pairs. rewrite app_nil_r. auto.
  - cbn [for_paragraphs_traced].
    assert (Hnext : forall tcs1 cur1 sep,
      rebuild ov tcs1 ++ cur1 = (rebuild ov tcs ++ cur) ++ sep ++ p ->
      all_space sep = true -> (cur = [] -> sep = []) ->
      for_paragraphs_traced fuel maxc ov rest tcs1 cur1 = Some (tcs', cur') ->
      exists pairs',
        map snd pairs' = map snd pairs ++ p :: rest
        /\ loop_inv ov pairs' tcs' cur').
    { intros tcs1 cur1 sep Hr Hs Hc Hrun.
      destruct (IH (pairs ++ [(sep, p)]) tcs1 cur1 tcs' cur'
                  (loop_inv_snoc _ _ _ _ _ _ _ _ Hinv Hr Hs Hc) Hrun)
        as (pairs' & Hm & Hi).
      exists pairs'. split; [|exact Hi].
      rewrite Hm, map_app, <- app_assoc. reflexivity. }
    destruct (str_length p >? maxc).
    + destruct (slide_traced fuel maxc ov p 0 0) as [ws|] eqn:Ews;
        [|discriminate].
      apply (Hnext _ _ []); [|reflexivity|reflexivity].
      rewrite rebuild_app, (rebuild_windows _ _ _ _ _ Hov Ews).
      destruct cur; simpl; rewrite ?rebuild_app, ?rebuild_buffer, ?app_nil_r;
        reflexivity.
    + destruct (str_length cur + str_length p >? maxc).
      * apply (Hnext _ _ []); [|reflexivity|reflexivity].
        rewrite rebuild_app, rebuild_buffer. reflexivity.
      * apply (Hnext _ _ (if truthy_str cur then [LF; LF] else [])).
        -- rewrite app_assoc. reflexivity.
        -- destruct (truthy_str cur); reflexivity.
        -- intros ->. reflexivity.
Qed.

Lemma for_paragraphs_terminates fuel maxc ov :
  ov < maxc ->
  forall ps tcs cur,
    Forall (fun p => (length p <= fuel)%nat) ps ->
    is_Some (for_paragraphs_traced fuel maxc ov ps tcs cur).
Proof.
  intros Hov. induction ps as [|p rest IH]; intros tcs cur Hf; simpl;
    [eauto|].
  inversion Hf as [|? ? Hp Hrest]; subst.
  destruct (str_length p >? maxc).
  - destruct (slide_terminates maxc ov p fuel 0 Hov) as [[ws ->] _].
    { unfold str_length. lia. }
    apply IH, Hrest.
  - destruct (str_length cur + str_length p >? maxc); apply IH, Hrest.
Qed.

Lemma for_paragraphs_diverges fuel maxc ov :
  maxc <= ov ->
  forall ps tcs cur,
    Exists (fun p => Z.max 0 maxc < str_length p) ps ->
    for_paragraphs_traced fuel maxc ov ps tcs cur = None.
Proof.
  intros Hov. induction ps as [|p rest IH]; intros tcs cur Hex;
    [inversion Hex|].
  cbn [for_paragraphs_traced].
  inversion Hex as [? ? Hp|? ? Hrest]; subst.
  - destruct (Z.gtb_spec (str_length p) maxc) as [Hbig|Hsmall]; [|lia].
    rewrite slide_diverges by lia. reflexivity.
  - destruct (str_length p >? maxc).
    + destruct (slide_traced fuel maxc ov p 0 0); [apply IH, Hrest|reflexivity].
    + destruct (str_length cur + str_length p >? maxc); apply IH, Hrest.
Qed.

Lemma traced_some fuel text maxc ov tcs :
  splitTextIntoChunks_traced fuel text maxc ov = Some tcs ->
  splitTextIntoChunks fuel text maxc ov = Some (map snd tcs).
Proof. intros H. rewrite <- erase_origin, H. reflexivity. Qed.

Lemma traced_none fuel text maxc ov :
  splitTextIntoChunks_traced fuel text maxc ov = None ->
  splitTextIntoChunks fuel text maxc ov = None.
Proof. intros H. rewrite <- erase_origin, H. reflexivity. Qed.

Lemma split_terminates fuel text maxc ov :
  ov < maxc -> (length text <= fuel)%nat ->
  is_Some (splitTextIntoChunks_traced fuel text maxc ov).
Proof.
  intros Hov Hfuel. unfold splitTextIntoChunks_traced.
  destruct (str_length text <=? maxc); [eauto|].
  destruct (for_paragraphs_terminates fuel maxc ov Hov (split_blank text) [] [])
    as [[tcs cur] ->]; [|eauto].
  apply Forall_forall. intros p Hp.
  apply list_elem_of_In, paragraph_length_bound in Hp. lia.
Qed.

Lemma split_rebuild fuel text maxc ov tcs :
  0 <= ov < maxc ->
  splitTextIntoChunks_traced fuel text maxc ov = Some tcs ->
  paragraphs_joined (split_blank text) (rebuild ov tcs).
Proof.
  intros Hov. unfold splitTextIntoChunks_traced.
  destruct (str_length text <=? maxc).
  - intros [= <-]. replace (rebuild ov [(Whole, text)]) with text
      by (unfold rebuild; simpl; rewrite app_nil_r; reflexivity).
    apply split_blank_joined.
  - destruct (for_paragraphs_traced fuel maxc ov (split_blank text) [] [])
      as [[tcs' cur]|] eqn:E; [|discriminate].
    intros [= <-].
    destruct (for_paragraphs_inv fuel maxc ov Hov (split_blank text)
                [] [] [] tcs' cur) as
      (pairs & Hm & Hg & Hf & Hh); [repeat split; constructor|exact E|].
    simpl in Hm.
    assert (Hr : rebuild ov (if truthy_str cur
                             then tcs' ++ [(Buffer, cur)] else tcs')
                 = glue pairs).
    { rewrite <- Hg. destruct cur; simpl;
        rewrite ?rebuild_app, ?rebuild_buffer, ?app_nil_r; reflexivity. }
    rewrite Hr. destruct pairs as [|[sep0 p0] rest].
    + destruct (split_blank_joined text) as (q & r & Hq & _).
      rewrite Hq in Hm. discriminate.
    + simpl in Hh. subst sep0. exists p0, rest.
      split; [symmetry; exact Hm|].
      split; [inversion Hf; assumption|reflexivity].
Qed.

(** *** Properties of [splitTextIntoChunks] *)

Lemma split_short fuel text maxc ov :
  str_length text <= maxc ->
  splitTextIntoChunks fuel text maxc ov = Some [text].
Proof.
  intros H. unfold splitTextIntoChunks.
  destruct (Z.leb_spec (str_length text) maxc); [reflexivity|lia].
Qed.

(** C8. A text no longer than [maxChunkSize] (the empty text included) is
    returned as the one-element sequence [[text]], whatever the overlap. *)
Theorem short_text_is_one_chunk fuel text maxChunkSize overlap :
  str_length text <= maxChunkSize ->
  splitTextIntoChunks fuel text maxChunkSize overlap = Some [text].
Proof. apply split_short. Qed.

Lemma short_text_is_one_chunk_witness :
  str_length [] <= default_maxChunkSize
  /\ splitTextIntoChunks 0 [] default_maxChunkSize default_overlap = Some [[]].
Proof.
  split; [vm_compute; discriminate|].
  apply (short_text_is_one_chunk 0 [] default_maxChunkSize default_overlap).
  vm_compute; discriminate.
Defined.

Example hello_world_one_chunk :
  splitTextIntoChunks 0 (js "Hello world.") 1000 200
  = Some [js "Hello world."].
Proof. reflexivity. Qed.

(** C2. With [0 <= overlap < maxChunkSize] the call returns, and its
    chunks, each later window of an oversized paragraph taken without its
    first [overlap] characters, concatenated in the order returned, are the
    paragraphs of the text in source order with only whitespace between
    two consecutive ones, as the text itself is. *)
Theorem chunks_rebuild_text text maxChunkSize overlap fuel :
  0 <= overlap < maxChunkSize ->
  (length text <= fuel)%nat ->
  exists chunks,
    splitTextIntoChunks_traced fuel text maxChunkSize overlap = Some chunks
    /\ splitTextIntoChunks fuel text maxChunkSize overlap
       = Some (map snd chunks)
    /\ paragraphs_joined (split_blank text) text
    /\ paragraphs_joined (split_blank text) (rebuild overlap chunks).
Proof.
  intros Hov Hfuel.
  destruct (split_terminates fuel text maxChunkSize overlap) as [tcs Htcs];
    [lia|exact Hfuel|].
  exists tcs. split; [exact Htcs|].
  split; [apply traced_some, Htcs|].
  split; [apply split_blank_joined|].
  eapply split_rebuild; eassumption.
Qed.

(** A text of three paragraphs, the last one oversized. *)
Definition sample_text : jsstring :=
  js "a" ++ [LF; 32%N; LF; LF] ++ js "b" ++ [LF] ++ js "c" ++ [LF; LF]
     ++ js "abcdefghijklmnopqrstuvw".

Lemma chunks_rebuild_text_witness :
  0 <= 4 < 10 /\ (length sample_text <= 40)%nat
  /\ exists chunks,
       splitTextIntoChunks_traced 40 sample_text 10 4 = Some chunks
       /\ splitTextIntoChunks 40 sample_text 10 4 = Some (map snd chunks)
       /\ paragraphs_joined (split_blank sample_text) sample_text
       /\ paragraphs_joined (split_blank sample_text) (rebuild 4 chunks).
Proof.
  split; [lia|]. split; [vm_compute; lia|].
  apply (chunks_rebuild_text sample_text 10 4 40); [lia|vm_compute; lia].
Defined.

Example sample_text_chunks :
  splitTextIntoChunks 40 sample_text 10 4
  = Some [js "a" ++ [LF; LF] ++ js "b" ++ [LF] ++ js "c";
          js "abcdefghij"; js "ghijklmnop"; js "mnopqrstuv"; js "stuvw"]
  /\ (rebuild 4 <$> splitTextIntoChunks_traced 40 sample_text 10 4)
     = Some (js "a" ++ [LF; LF] ++ js "b" ++ [LF] ++ js "c"
               ++ js "abcdefghijklmnopqrstuvw").
Proof. split; reflexivity. Qed.

(** C6, as stated, fails: a configuration with [overlap >= maxChunkSize] is
    not rejected; on a short text the call returns normally. *)
Lemma overlap_not_validated :
  10 <= 10
  /\ splitTextIntoChunks 0 (js "abc") 10 10 = Some [js "abc"].
Proof. split; [lia|reflexivity]. Qed.

(** C6, amended. The function checks nothing about its configuration.
    With [overlap < maxChunkSize] every call returns (the sliding window
    terminates).  With [overlap >= maxChunkSize] a text no longer than
    [maxChunkSize] is still returned as one chunk, and a longer text with a
    non-empty paragraph longer than [maxChunkSize] makes the sliding
    window run for ever: the call never returns, whatever the fuel. *)
Theorem sliding_window_termination text maxChunkSize overlap :
  (overlap < maxChunkSize ->
   forall fuel, (length text <= fuel)%nat ->
     exists chunks,
       splitTextIntoChunks fuel text maxChunkSize overlap = Some chunks)
  /\ (maxChunkSize <= overlap ->
      str_length text <= maxChunkSize ->
      forall fuel,
        splitTextIntoChunks fuel text maxChunkSize overlap = Some [text])
  /\ (maxChunkSize <= overlap ->
      maxChunkSize < str_length text ->
      Exists (fun p => Z.max 0 maxChunkSize < str_length p)
        (split_blank text) ->
      forall fuel,
        splitTextIntoChunks fuel text maxChunkSize overlap = None).
Proof.
  split; [|split].
  - intros Hov fuel Hfuel.
    destruct (split_terminates fuel text maxChunkSize overlap Hov Hfuel)
      as [tcs Htcs].
    exists (map snd tcs). apply traced_some, Htcs.
  - intros _ Hshort fuel. apply split_short, Hshort.
  - intros Hov Hlong Hex fuel. apply traced_none.
    unfold splitTextIntoChunks_traced.
    destruct (Z.leb_spec (str_length text) maxChunkSize); [lia|].
    rewrite for_paragraphs_diverges by assumption. reflexivity.
Qed.

Lemma sliding_window_termination_witness :
  (exists chunks,
     splitTextIntoChunks 23 (js "abcdefghijklmnopqrstuvw") 10 3
     = Some chunks)
  /\ splitTextIntoChunks 0 (js "abc") 10 10 = Some [js "abc"]
  /\ forall fuel,
       splitTextIntoChunks fuel (js "abcdefghijklmnopqrstuvw") 10 10 = None.
Proof.
  split; [|split].
  - apply (sliding_window_termination (js "abcdefghijklmnopqrstuvw") 10 3);
      [lia|vm_compute; lia].
  - apply (sliding_window_termination (js "abc") 10 10);
      [lia|vm_compute; discriminate].
  - apply (sliding_window_termination (js "abcdefghijklmnopqrstuvw") 10 10);
      [lia|vm_compute; reflexivity|].
    constructor. vm_compute. reflexivity.
Defined.

End ChunkerFacts.

(** ** The vector store ([insertDocument], [searchDocuments],
    vectorService.js) *)
Module VectorStore.
Import JS.

(** Identifiers of notebooks, sources and rows. *)
Definition ident := Z.

(** The metadata object [processDocument] attaches to every chunk. *)
Record metadata : Type := {
  notebook_id : ident;
  source_id : ident;
  source_title : option jsstring;
  source_type : option jsstring;
  chunk_index : Z;
  notebook_title : jsstring
}.

Section Store.

(** Embedding vectors, the distance [<=>] of the store (cosine distance)
    and the embedding provider, which may throw ([None]). *)
Variable vector : Type.
Variable cosine_distance : vector -> vector -> Q.
Variable generateEmbeddings : jsstring -> option vector.

(** A row of the table [documents]. *)
Record document : Type := {
  id : ident;
  content : jsstring;
  meta : metadata;
  embedding : vector
}.

(** A row of the result of the search query. *)
Record result_row : Type := {
  row_id : ident;
  row_content : jsstring;
  row_metadata : metadata;
  similarity : Q
}.

(** [INSERT INTO documents (content, metadata, embedding) ... RETURNING id]:
    the embedding is computed first; when it throws nothing is written. *)
Definition insertDocument (db : list document) (next_id : ident)
  (text : jsstring) (m : metadata) : option (list document * ident) :=
  match generateEmbeddings text with
  | None => None
  | Some e =>
      Some (db ++ [{| id := next_id; content := text; meta := m;
                      embedding := e |}], next_id)
  end.

(** [ORDER BY embedding <=> $1]: ascending distance to the query vector
    (rows at the same distance keep their table order). *)
Fixpoint insert_by_distance (q : vector) (d : document) (l : list document)
  : list document :=
  match l with
  | [] => [d]
  | x :: l' =>
      if Qle_bool (cosine_distance (embedding d) q)
                  (cosine_distance (embedding x) q)
      then d :: x :: l'
      else x :: insert_by_distance q d l'
  end.

Definition order_by_distance (q : vector) (l : list document)
  : list document :=
  foldr (insert_by_distance q) [] l.

(** [WHERE metadata->>'notebook_id' = $2] *)
Definition in_notebook (notebookId : ident) (d : document) : bool :=
  notebook_id (meta d) =? notebookId.

(** [SELECT id, content, metadata, 1 - (embedding <=> $1) as similarity] *)
Definition select_row (q : vector) (d : document) : result_row :=
  {| row_id := id d; row_content := content d; row_metadata := meta d;
     similarity := (1 - cosine_distance (embedding d) q)%Q |}.

Definition searchDocuments (db : list document) (query : jsstring)
  (notebookId : ident) (limit : nat) : option (list result_row) :=
  match generateEmbeddings query with
  | None => None
  | Some q =>
      Some (take limit
              (map (select_row q)
                 (order_by_distance q
                    (List.filter (in_notebook notebookId) db))))
  end.

Definition default_limit : nat := 5.

(** *** Sorting facts *)

Lemma insert_by_distance_perm q d l :
  Permutation (insert_by_distance q d l) (d :: l).
Proof.
  induction l as [|x l IH]; simpl; [reflexivity|].
  destruct (Qle_bool _ _); [reflexivity|].
  rewrite IH. apply perm_swap.
Qed.

Lemma order_by_distance_perm q l : Permutation (order_by_distance q l) l.
Proof.
  induction l as [|x l IH]; simpl; [reflexivity|].
  rewrite insert_by_distance_perm, IH. reflexivity.
Qed.

Definition closer (q : vector) (a b : document) : Prop :=
  (cosine_distance (embedding a) q <= cosine_distance (embedding b) q)%Q.

Lemma insert_by_distance_sorted q d l :
  StronglySorted (closer q) l ->
  StronglySorted (closer q) (insert_by_distance q d l).
Proof.
  induction l as [|x l IH]; simpl; intros Hs.
  - repeat constructor.
  - apply StronglySorted_inv in Hs. destruct Hs as [Hl Hx].
    destruct (Qle_bool _ _) eqn:E.
    + apply Qle_bool_iff in E. constructor; [constructor; assumption|].
      constructor; [exact E|].
      eapply Forall_impl; [exact Hx|]. intros y Hy. unfold closer in *.
      eapply Qle_trans; eassumption.
    + assert (Hxd : closer q x d).
      { unfold closer. destruct (Qlt_le_dec (cosine_distance (embedding x) q)
                                   (cosine_distance (embedding d) q)) as [H|H].
        - apply Qlt_le_weak, H.
        - apply Qle_bool_iff in H. congruence. }
      constructor; [apply IH, Hl|].
      eapply Permutation_Forall;
        [symmetry; apply insert_by_distance_perm|].
      constructor; assumption.
Qed.

Lemma order_by_distance_sorted q l :
  StronglySorted (closer q) (order_by_distance q l).
Proof.
  induction l as [|x l IH]; simpl; [constructor|].
  apply insert_by_distance_sorted, IH.
Qed.

Lemma StronglySorted_take {A} (R : A -> A -> Prop) n l :
  StronglySorted R l -> StronglySorted R (take n l).
Proof.
  revert n. induction l as [|x l IH]; intros [|n] Hs; simpl;
    try constructor.
  - apply IH. apply StronglySorted_inv in Hs. tauto.
  - apply StronglySorted_inv in Hs. destruct Hs as [_ Hx].
    apply Forall_forall. intros y Hy.
    eapply Forall_forall in Hx; [exact Hx|].
    eapply subseteq_take, Hy.
Qed.

Lemma StronglySorted_map {A B} (f : A -> B) (R : A -> A -> Prop)
  (S : B -> B -> Prop) l :
  (forall a b, R a b -> S (f a) (f b)) ->
  StronglySorted R l -> StronglySorted S (map f l).
Proof.
  intros HRS. induction 1 as [|x l Hl IH Hx]; simpl; constructor; [exact IH|].
  apply Forall_forall. intros y Hy.
  apply list_elem_of_fmap in Hy. destruct Hy as (a & -> & Ha).
  apply HRS. eapply Forall_forall in Hx; eassumption.
Qed.

Lemma StronglySorted_app_inv {A} (R : A -> A -> Prop) l1 l2 :
  StronglySorted R (l1 ++ l2) ->
  forall a b, a ∈ l1 -> b ∈ l2 -> R a b.
Proof.
  induction l1 as [|x l1 IH]; simpl; intros Hs a b Ha Hb.
  - inversion Ha.
  - apply StronglySorted_inv in Hs. destruct Hs as [Hl Hx].
    apply elem_of_cons in Ha. destruct Ha as [->|Ha].
    + eapply Forall_forall in Hx; [exact Hx|].
      apply elem_of_app. right. exact Hb.
    + eapply IH; eassumption.
Qed.

Lemma closer_similarity q a b :
  closer q a b ->
  (similarity (select_row q b) <= similarity (select_row q a))%Q.
Proof.
  unfold closer, select_row. simpl. intros H.
  unfold Qminus. apply Qplus_le_r, Qopp_le_compat, H.
Qed.

(** What the query promises about its rows for the query vector [q]:
    every row is a document of the notebook; there are [limit] rows, or all
    the notebook's documents when it has fewer; the rows are in descending
    similarity; and every document of the notebook that was left out is no
    more similar than any row returned. *)
Definition ranked_within_notebook (db : list document) (q : vector)
  (notebookId : ident) (limit : nat) (rows : list result_row) : Prop :=
  Forall (fun r => notebook_id (row_metadata r) = notebookId) rows
  /\ length rows
     = Nat.min limit (length (List.filter (in_notebook notebookId) db))
  /\ StronglySorted (fun a b => (similarity b <= similarity a)%Q) rows
  /\ exists left_out,
       Permutation (rows ++ left_out)
         (map (select_row q) (List.filter (in_notebook notebookId) db))
       /\ forall r r', r ∈ rows -> r' ∈ left_out ->
            (similarity r' <= similarity r)%Q.

(** C1. Whatever the stored documents and the query, the rows returned by
    [searchDocuments] all carry the queried notebook id in their metadata,
    are ordered by similarity [1 - distance] descending and are the first
    [limit] of that order. *)
Theorem search_is_scoped_and_ranked db query notebookId limit rows :
  searchDocuments db query notebookId limit = Some rows ->
  exists q,
    generateEmbeddings query = Some q
    /\ ranked_within_notebook db q notebookId limit rows.
Proof.
  unfold searchDocuments.
  destruct (generateEmbeddings query) as [q|]; [|discriminate].
  intros [= <-]. exists q. split; [reflexivity|].
  set (docs := List.filter (in_notebook notebookId) db).
  set (sorted := order_by_distance q docs).
  assert (Hperm : Permutation sorted docs) by apply order_by_distance_perm.
  assert (Hsorted : StronglySorted
            (fun a b => (similarity b <= similarity a)%Q)
            (map (select_row q) sorted)).
  { eapply StronglySorted_map; [|apply order_by_distance_sorted].
    apply closer_similarity. }
  repeat split.
  - apply Forall_forall. intros r Hr.
    apply subseteq_take in Hr. apply list_elem_of_fmap in Hr.
    destruct Hr as (d & -> & Hd). simpl.
    rewrite Hperm in Hd. apply list_elem_of_In, filter_In in Hd.
    destruct Hd as [_ Hd]. apply Z.eqb_eq, Hd.
  - rewrite length_take, length_map, (Permutation_length Hperm). reflexivity.
  - apply StronglySorted_take, Hsorted.
  - exists (drop limit (map (select_row q) sorted)). split.
    + rewrite take_drop. apply Permutation_map, Hperm.
    + intros r r' Hr Hr'.
      rewrite <- (take_drop limit (map (select_row q) sorted)) in Hsorted.
      exact (StronglySorted_app_inv _ _ _ Hsorted r r' Hr Hr').
Qed.

End Store.

Arguments id {vector} _.
Arguments content {vector} _.
Arguments meta {vector} _.
Arguments embedding {vector} _.

(** *** Two notebooks with the same vocabulary *)

Definition sample_distance (a b : Z) : Q := inject_Z (Z.abs (a - b)).
Definition sample_embed (s : jsstring) : option Z := Some (str_length s).

Definition sample_meta (nb src idx : Z) : metadata :=
  {| notebook_id := nb; source_id := src; source_title := Some (js "notes");
     source_type := Some (js "text"); chunk_index := idx;
     notebook_title := js "nb" |}.

Definition sample_db : list (document Z) :=
  [ {| id := 1; content := js "alpha beta"; meta := sample_meta 1 10 0;
       embedding := 10 |};
    {| id := 2; content := js "alpha beta"; meta := sample_meta 2 20 0;
       embedding := 10 |};
    {| id := 3; content := js "alpha"; meta := sample_meta 1 10 1;
       embedding := 5 |};
    {| id := 4; content := js "alpha beta gamma"; meta := sample_meta 2 20 1;
       embedding := 16 |};
    {| id := 5; content := js "beta"; meta := sample_meta 1 11 0;
       embedding := 4 |} ].

Definition sample_rows : list result_row :=
  [ {| row_id := 3; row_content := js "alpha"; row_metadata := sample_meta 1 10 1;
       similarity := (1 - inject_Z 0)%Q |};
    {| row_id := 5; row_content := js "beta"; row_metadata := sample_meta 1 11 0;
       similarity := (1 - inject_Z 1)%Q |} ].

Lemma search_is_scoped_and_ranked_witness :
  searchDocuments Z sample_distance sample_embed sample_db (js "alpha") 1 2
  = Some sample_rows
  /\ exists q,
       sample_embed (js "alpha") = Some q
       /\ ranked_within_notebook Z sample_distance sample_db q 1 2 sample_rows.
Proof.
  split; [reflexivity|].
  apply (search_is_scoped_and_ranked Z sample_distance sample_embed
           sample_db (js "alpha") 1 2 sample_rows).
  reflexivity.
Defined.

End VectorStore.

(** ** JavaScript values and objects *)
Module JSVal.
Import JS.

(** The values that occur as properties of the option, configuration and
    message objects; a stored configuration is a JSON column, so its entries
    may also be arrays and objects. *)
#[warnings="-register-all"]
Inductive jsval : Type :=
  | JUndefined
  | JNull
  | JBool (b : bool)
  | JNum (q : Q)
  | JStr (s : jsstring)
  | JArr (items : list jsval)
  | JObj (fields : list (string * jsval)).

(** ToBoolean. *)
Definition truthy (v : jsval) : bool :=
  match v with
  | JUndefined | JNull => false
  | JBool b => b
  | JNum q => negb (Qeq_bool q 0)
  | JStr s => truthy_str s
  | JArr _ | JObj _ => true
  end.

(** [a || b] *)
Definition js_or (a b : jsval) : jsval := if truthy a then a else b.

(** An object is a finite map from property names to values; reading a
    property that is not there gives [undefined]. *)
Definition get (o : gmap string jsval) (k : string) : jsval :=
  default JUndefined (o !! k).

(** [v === 'user'] and the like. *)
Definition is_string (s : jsstring) (v : jsval) : bool :=
  match v with
  | JStr s' => bool_decide (s' = s)
  | _ => false
  end.

End JSVal.

(** ** The provider adapters ([generateChatResponse], llmService.js) *)
Module LLM.
Import JS JSVal.

(** A row of [llm_configs]. *)
Record llm_config : Type := {
  provider : jsstring;
  model : jsstring;
  api_key : jsstring;
  base_url : jsstring;
  is_active : bool;
  is_default : bool;
  config : gmap string jsval
}.

(** The [messages] an adapter hands to the client library: the caller's
    messages as [(role, content)] (for Gemini, [(role, parts[0].text)]), or
    the [messages] entry of the stored configuration where the adapter
    spreads that configuration over the object that holds them. *)
Inductive messages_entry : Type :=
  | Formatted (msgs : list (jsstring * jsval))
  | Stored (v : jsval).

(** What an adapter hands to the client library of its provider: the model,
    the messages, and the object that carries the sampling options.  For
    OpenAI and Anthropic the three are one object, the request body, and
    [rq_options] holds every entry of it that the stored configuration or
    the two sampling options give; for Gemini the options are
    [generationConfig], for Ollama [options], and the model and the messages
    are passed beside them. *)
Record provider_request : Type := {
  rq_provider : jsstring;
  rq_model : jsval;
  rq_messages : messages_entry;
  rq_options : gmap string jsval
}.

Record llm_reply : Type := {
  text : jsstring;
  reply_provider : jsstring;
  reply_model : jsstring
}.

(** [msg.role === 'user' ? 'user' : other] *)
Definition map_role (other : jsstring) (msg : gmap string jsval)
  : jsstring * jsval :=
  (if is_string (js "user") (get msg "role") then js "user" else other,
   get msg "content").

Definition default_temperature : jsval := JNum (7 # 10).
Definition default_max_tokens : jsval := JNum (1000 # 1).

(** [{ temperature: options.temperature || 0.7,
       <max>: options.max_tokens || 1000, ...config.config }]:
    the spread comes last, so its entries replace the two before it. *)
Definition sampling_options (max_key : string) (cfg : llm_config)
  (options : gmap string jsval) : gmap string jsval :=
  config cfg
    ∪ <["temperature" := js_or (get options "temperature") default_temperature]>
        (<[max_key := js_or (get options "max_tokens") default_max_tokens]> ∅).

(** [{ model: config.model, ..., ...config.config }]: a [model] entry of
    the spread replaces the one written first. *)
Definition body_model (cfg : llm_config) : jsval :=
  default (JStr (model cfg)) (config cfg !! "model").

(** [{ ..., messages: formatted, ..., ...config.config }]: likewise for a
    [messages] entry of the spread. *)
Definition body_messages (cfg : llm_config)
  (formatted : list (jsstring * jsval)) : messages_entry :=
  match config cfg !! "messages" with
  | Some v => Stored v
  | None => Formatted formatted
  end.

(** [openai.createChatCompletion({ model, messages, temperature, max_tokens,
     ...config.config })] *)
Definition generateOpenAIResponse_request (cfg : llm_config)
  (messages : list (gmap string jsval)) (options : gmap string jsval)
  : provider_request :=
  {| rq_provider := js "openai"; rq_model := body_model cfg;
     rq_messages :=
       body_messages cfg (map (map_role (js "assistant")) messages);
     rq_options := sampling_options "max_tokens" cfg options |}.

(** [anthropic.messages.create({ model, messages, max_tokens, temperature,
     ...config.config })] *)
Definition generateAnthropicResponse_request (cfg : llm_config)
  (messages : list (gmap string jsval)) (options : gmap string jsval)
  : provider_request :=
  {| rq_provider := js "anthropic"; rq_model := body_model cfg;
     rq_messages :=
       body_messages cfg (map (map_role (js "assistant")) messages);
     rq_options := sampling_options "max_tokens" cfg options |}.

(** [getGenerativeModel({ model })], [startChat({ generationConfig })] and
    [sendMessage(formattedMessages)]: the spread reaches the generation
    options only. *)
Definition generateGeminiResponse_request (cfg : llm_config)
  (messages : list (gmap string jsval)) (options : gmap string jsval)
  : provider_request :=
  {| rq_provider := js "gemini"; rq_model := JStr (model cfg);
     rq_messages := Formatted (map (map_role (js "model")) messages);
     rq_options := sampling_options "maxOutputTokens" cfg options |}.

(** [ollama.chat({ model, messages, options: { ..., ...config.config } })]:
    the spread reaches [options] only. *)
Definition generateOllamaResponse_request (cfg : llm_config)
  (messages : list (gmap string jsval)) (options : gmap string jsval)
  : provider_request :=
  {| rq_provider := js "ollama"; rq_model := JStr (model cfg);
     rq_messages := Formatted (map (map_role (js "assistant")) messages);
     rq_options := sampling_options "num_predict" cfg options |}.

(** [SELECT * FROM llm_configs WHERE is_active = true
     ORDER BY is_default DESC LIMIT 1]; no row: throws. *)
Definition getActiveLLMConfig (llm_configs : list llm_config)
  : option llm_config :=
  let active := List.filter is_active llm_configs in
  match List.filter is_default active with
  | c :: _ => Some c
  | [] => head active
  end.

(** The [switch (llmConfig.provider)] of [generateChatResponse]; an
    unsupported provider throws. *)
Definition build_request (cfg : llm_config)
  (messages : list (gmap string jsval)) (options : gmap string jsval)
  : option provider_request :=
  if bool_decide (provider cfg = js "openai") then
    Some (generateOpenAIResponse_request cfg messages options)
  else if bool_decide (provider cfg = js "anthropic") then
    Some (generateAnthropicResponse_request cfg messages options)
  else if bool_decide (provider cfg = js "gemini") then
    Some (generateGeminiResponse_request cfg messages options)
  else if bool_decide (provider cfg = js "ollama") then
    Some (generateOllamaResponse_request cfg messages options)
  else None.

(** The providers the [switch] has a case for. *)
Definition chat_providers : list jsstring :=
  [js "openai"; js "anthropic"; js "gemini"; js "ollama"].

(** The request issued by [generateChatResponse], if it gets that far. *)
Definition chat_request (llm_configs : list llm_config)
  (messages : list (gmap string jsval)) (options : gmap string jsval)
  : option provider_request :=
  cfg ← getActiveLLMConfig llm_configs;
  build_request cfg messages options.

Section Transport.

(** The provider behind the client library: the text of its answer, or
    [None] when the call throws. *)
Variable transport : provider_request -> option jsstring.

(** Each adapter answers [{ text, provider: <its name>, model:
    config.model }] with the text of the provider's answer. *)
Definition generateChatResponse (llm_configs : list llm_config)
  (messages : list (gmap string jsval)) (options : gmap string jsval)
  : option llm_reply :=
  cfg ← getActiveLLMConfig llm_configs;
  rq ← build_request cfg messages options;
  answer ← transport rq;
  Some {| text := answer; reply_provider := rq_provider rq;
          reply_model := model cfg |}.

End Transport.

(** *** The layering the specification describes

    Built-in defaults, then the caller's options, then the stored
    configuration, the last one applied winning. *)
Definition builtin_defaults (max_key : string) : gmap string jsval :=
  <["temperature" := default_temperature]>
    (<[max_key := default_max_tokens]> ∅).

Definition caller_overrides (max_key : string) (options : gmap string jsval)
  : gmap string jsval :=
  match options !! "temperature", options !! "max_tokens" with
  | Some t, Some m => <["temperature" := t]> (<[max_key := m]> ∅)
  | Some t, None => <["temperature" := t]> ∅
  | None, Some m => <[max_key := m]> ∅
  | None, None => ∅
  end.

Definition layered_options (max_key : string) (cfg : llm_config)
  (options : gmap string jsval) : gmap string jsval :=
  config cfg ∪ (caller_overrides max_key options ∪ builtin_defaults max_key).

(** *** Facts about the adapters *)

Lemma get_absent (o : gmap string jsval) k : o !! k = None -> get o k = JUndefined.
Proof. unfold get. intros ->. reflexivity. Qed.

Lemma get_present (o : gmap string jsval) k v : o !! k = Some v -> get o k = v.
Proof. unfold get. intros ->. reflexivity. Qed.

Lemma js_or_truthy a b : truthy a = true -> js_or a b = a.
Proof. unfold js_or. intros ->. reflexivity. Qed.

(** When the caller gives no value or a truthy one for both options, the
    adapters compute the layering of the specification. *)
Lemma sampling_options_layered max_key cfg (options : gmap string jsval) :
  max_key <> "temperature" ->
  (forall v, options !! "temperature" = Some v -> truthy v = true) ->
  (forall v, options !! "max_tokens" = Some v -> truthy v = true) ->
  sampling_options max_key cfg options = layered_options max_key cfg options.
Proof.
  intros Hk Ht Hm. unfold sampling_options, layered_options. f_equal.
  unfold caller_overrides, builtin_defaults.
  destruct (options !! "temperature") as [t|] eqn:Et;
    destruct (options !! "max_tokens") as [m|] eqn:Em;
    rewrite ?(get_present _ _ _ Et), ?(get_present _ _ _ Em),
      ?(get_absent _ _ Et), ?(get_absent _ _ Em),
      ?(js_or_truthy t) by auto;
    rewrite ?(js_or_truthy m) by auto;
    change (js_or JUndefined ?d) with d;
    apply map_eq; intros k;
    (destruct (decide (k = "temperature")) as [Hkt|Hkt];
     [subst k|destruct (decide (k = max_key)) as [Hkm|Hkm]; [subst k|]]);
    repeat (rewrite ?lookup_union, ?lookup_insert_eq, ?lookup_empty;
            rewrite ?lookup_insert_ne by congruence);
    reflexivity.
Qed.

(** A caller asking for temperature 0 with nothing stored for the
    provider. *)
Definition plain_config (p : jsstring) : llm_config :=
  {| provider := p; model := js "m"; api_key := js "k"; base_url := [];
     is_active := true; is_default := true; config := ∅ |}.

Definition zero_temperature : gmap string jsval :=
  <["temperature" := JNum 0]> ∅.

(** C7. With the caller's [{temperature: 0}] and an empty stored
    configuration the layering of the specification yields temperature 0,
    but both adapters send 0.7: [options.temperature || 0.7] takes the
    caller's 0 for a missing value. *)
Theorem caller_zero_temperature_replaced :
  layered_options "max_tokens" (plain_config (js "openai")) zero_temperature
    !! "temperature" = Some (JNum 0)
  /\ rq_options (generateOpenAIResponse_request (plain_config (js "openai"))
                   [] zero_temperature) !! "temperature"
     = Some (JNum (7 # 10))
  /\ layered_options "num_predict" (plain_config (js "ollama")) zero_temperature
       !! "temperature" = Some (JNum 0)
  /\ rq_options (generateOllamaResponse_request (plain_config (js "ollama"))
                   [] zero_temperature) !! "temperature"
     = Some (JNum (7 # 10)).
Proof. repeat split; vm_compute; reflexivity. Qed.

End LLM.

(** ** The chat route ([routes/chat.js]) *)
Module Chat.
Import JS JSVal VectorStore LLM.

(** *** [processResponseWithCitations] *)

Record segment : Type := {
  seg_text : jsstring;
  seg_citation_id : option Z
}.

Record citation : Type := {
  citation_id : Z;
  cit_source_id : ident;
  cit_source_title : jsstring;
  cit_source_type : jsstring;
  cit_chunk_index : ident;
  chunk_lines_from : Z;
  chunk_lines_to : Z;
  excerpt : jsstring
}.

Record processed : Type := {
  segments : list segment;
  citations : list citation
}.

(** [text.split('\n\n')]: [cur] holds (reversed) the characters since the
    last separator. *)
Fixpoint split_LFLF (cur : jsstring) (s : jsstring) : list jsstring :=
  match s with
  | [] => [reverse cur]
  | c :: s' =>
      match s' with
      | c' :: s'' =>
          if ((c =? LF) && (c' =? LF))%N
          then reverse cur :: split_LFLF [] s''
          else split_LFLF (c :: cur) s'
      | [] => [reverse (c :: cur)]
      end
  end.

(** [text.split('\n\n').filter(p => p.trim())]: a paragraph is kept when
    trimming leaves something. *)
Definition answer_paragraphs (text : jsstring) : list jsstring :=
  List.filter (fun p => negb (all_space p)) (split_LFLF [] text).

(** [paragraph.split('\n').length] *)
Definition line_count (paragraph : jsstring) : Z :=
  Z.of_nat (S (length (List.filter (N.eqb LF) paragraph))).

(** [v || fallback] for a string property that may be missing. *)
Definition or_default (v : option jsstring) (fallback : jsstring) : jsstring :=
  match v with
  | Some (c :: s) => c :: s
  | _ => fallback
  end.

(** [relevantDocs[index % relevantDocs.length]]: with no document the
    index is [NaN] and the element [undefined]. *)
Definition doc_for (relevantDocs : list result_row) (index : nat)
  : option result_row :=
  match relevantDocs with
  | [] => None
  | _ :: _ => relevantDocs !! (index mod length relevantDocs)%nat
  end.

Definition make_citation (citationId : Z) (doc : result_row)
  (paragraph : jsstring) : citation :=
  {| citation_id := citationId;
     cit_source_id := source_id (row_metadata doc);
     cit_source_title :=
       or_default (source_title (row_metadata doc)) (js "Fuente desconocida");
     cit_source_type := or_default (source_type (row_metadata doc)) (js "text");
     cit_chunk_index := row_id doc;
     chunk_lines_from := 1;
     chunk_lines_to := line_count paragraph;
     excerpt := substring (row_content doc) 0 200 ++ js "..." |}.

(** The body of [paragraphs.forEach((paragraph, index) => ...)]. *)
Definition visit_paragraph (relevantDocs : list result_row) (index : nat)
  (paragraph : jsstring) (acc : processed) : processed :=
  match doc_for relevantDocs index with
  | Some mostRelevantDoc =>
      let citationId := Z.of_nat index + 1 in
      {| segments := segments acc
           ++ [{| seg_text := paragraph; seg_citation_id := Some citationId |}];
         citations := citations acc
           ++ [make_citation citationId mostRelevantDoc paragraph] |}
  | None =>
      {| segments := segments acc
           ++ [{| seg_text := paragraph; seg_citation_id := None |}];
         citations := citations acc |}
  end.

Fixpoint forEach_paragraph (relevantDocs : list result_row) (index : nat)
  (paragraphs : list jsstring) (acc : processed) : processed :=
  match paragraphs with
  | [] => acc
  | paragraph :: rest =>
      forEach_paragraph relevantDocs (S index) rest
        (visit_paragraph relevantDocs index paragraph acc)
  end.

Definition processResponseWithCitations (text : jsstring)
  (relevantDocs : list result_row) : processed :=
  forEach_paragraph relevantDocs O (answer_paragraphs text)
    {| segments := []; citations := [] |}.

(** *** The tables the route reads and writes *)

Record notebook : Type := {
  nb_id : ident;
  nb_user_id : ident
}.

Record source_status : Type := {
  st_notebook_id : ident;
  st_processing_status : jsstring
}.

Record chat_row : Type := {
  chat_id : Z;
  session_id : ident;
  message : gmap string jsval
}.

(** [{ type: 'human', content: message }] *)
Definition human_message (content : jsstring) : gmap string jsval :=
  <["type" := JStr (js "human")]> (<["content" := JStr content]> ∅).

(** [{ type: 'ai', content, provider, model }] *)
Definition ai_message (content prov mdl : jsstring) : gmap string jsval :=
  <["type" := JStr (js "ai")]>
    (<["content" := JStr content]>
       (<["provider" := JStr prov]> (<["model" := JStr mdl]> ∅))).

(** [{ role: 'user', content: message }] *)
Definition user_turn (content : jsstring) : gmap string jsval :=
  <["role" := JStr (js "user")]> (<["content" := JStr content]> ∅).

(** The instruction that precedes the context in the system message. *)
Definition system_instruction : jsstring :=
  js "Eres un asistente de investigaci" ++ [243%N] ++ js "n " ++ [250%N]
  ++ js "til y preciso. Responde a las preguntas bas" ++ [225%N]
  ++ js "ndote " ++ [218%N] ++ js "NICAMENTE en la informaci" ++ [243%N]
  ++ js "n proporcionada en el contexto. Si la informaci" ++ [243%N]
  ++ js "n no est" ++ [225%N]
  ++ js " en el contexto, di " ++ [34%N]
  ++ js "Lo siento, no tengo informaci" ++ [243%N]
  ++ js "n sobre eso en mis fuentes." ++ [34%N]
  ++ js " No inventes informaci" ++ [243%N] ++ js "n." ++ [LF; LF]
  ++ js "Contexto:" ++ [LF].

(** [relevantDocs.map(doc => doc.content).join('\n\n')] *)
Fixpoint join_LFLF (l : list jsstring) : jsstring :=
  match l with
  | [] => []
  | [s] => s
  | s :: l' => s ++ [LF; LF] ++ join_LFLF l'
  end.

Definition systemMessage (relevantDocs : list result_row)
  : gmap string jsval :=
  <["role" := JStr (js "system")]>
    (<["content" :=
         JStr (system_instruction ++ join_LFLF (map row_content relevantDocs))]>
       ∅).

(** [ORDER BY id DESC] *)
Fixpoint insert_by_id_desc (r : chat_row) (l : list chat_row)
  : list chat_row :=
  match l with
  | [] => [r]
  | x :: l' =>
      if chat_id x <=? chat_id r then r :: x :: l'
      else x :: insert_by_id_desc r l'
  end.

Definition order_by_id_desc (l : list chat_row) : list chat_row :=
  foldr insert_by_id_desc [] l.

(** [SELECT message FROM chat_histories WHERE session_id = $1
     ORDER BY id DESC LIMIT 10], then [.map(row => row.message).reverse()]. *)
Definition recent_history (rows : list chat_row) (notebookId : ident)
  : list (gmap string jsval) :=
  reverse
    (map message
       (take 10
          (order_by_id_desc
             (List.filter (fun r => session_id r =? notebookId) rows)))).

(** [[systemMessage, ...chatHistory, { role: 'user', content: message }]] *)
Definition turn_messages (rows : list chat_row) (notebookId : ident)
  (content : jsstring) (relevantDocs : list result_row)
  : list (gmap string jsval) :=
  systemMessage relevantDocs
    :: recent_history rows notebookId ++ [user_turn content].

Inductive response : Type :=
  | Error (status : Z) (error : jsstring)
  | Json (userMessage aiMessage : chat_row).

Definition MessageRequired : response :=
  Error 400 (js "El mensaje es requerido").
Definition NotebookNotFound : response :=
  Error 404 (js "Cuaderno no encontrado").
Definition NoProcessedSources : response :=
  Error 400 (js "No hay fuentes procesadas en este cuaderno").
Definition InternalError : response :=
  Error 500 (js "Error interno del servidor").

Section Route.

Variable vector : Type.
Variable cosine_distance : vector -> vector -> Q.
Variable generateEmbeddings : jsstring -> option vector.
Variable transport : provider_request -> option jsstring.
(** [JSON.stringify] of the processed response. *)
Variable stringify : processed -> jsstring.

Record database : Type := {
  notebooks : list notebook;
  sources : list source_status;
  documents : list (document vector);
  llm_configs : list llm_config;
  chat_histories : list chat_row;
  next_chat_id : Z
}.

(** [INSERT INTO chat_histories (session_id, message) VALUES ($1, $2)
     RETURNING *] *)
Definition insert_chat (db : database) (notebookId : ident)
  (m : gmap string jsval) : database * chat_row :=
  let row := {| chat_id := next_chat_id db; session_id := notebookId;
                message := m |} in
  ({| notebooks := notebooks db; sources := sources db;
      documents := documents db; llm_configs := llm_configs db;
      chat_histories := chat_histories db ++ [row];
      next_chat_id := next_chat_id db + 1 |}, row).

(** [SELECT id FROM notebooks WHERE id = $1 AND user_id = $2] *)
Definition notebookCheck (db : database) (notebookId userId : ident)
  : list notebook :=
  List.filter (fun n => (nb_id n =? notebookId) && (nb_user_id n =? userId))
    (notebooks db).

(** [SELECT COUNT( * ) FROM sources WHERE notebook_id = $1
     AND processing_status = 'completed'] *)
Definition completed_sources (db : database) (notebookId : ident) : Z :=
  Z.of_nat
    (length
       (List.filter
          (fun s => (st_notebook_id s =? notebookId)
                    && bool_decide (st_processing_status s = js "completed"))
          (sources db))).

(** What a turn leaves behind: the tables, the answer to the client, and
    the request handed to the provider, if the turn got that far. *)
Record outcome : Type := {
  out_db : database;
  out_response : response;
  out_llm_request : option provider_request
}.

(** [router.post('/send/:notebookId')] for the authenticated user
    [userId]; an exception of the search or of the provider is caught by
    the handler and answered with status 500. *)
Definition send (db : database) (userId notebookId : ident)
  (content : jsstring) : outcome :=
  if negb (truthy_str content) then
    {| out_db := db; out_response := MessageRequired;
       out_llm_request := None |}
  else if bool_decide (notebookCheck db notebookId userId = []) then
    {| out_db := db; out_response := NotebookNotFound;
       out_llm_request := None |}
  else if completed_sources db notebookId =? 0 then
    {| out_db := db; out_response := NoProcessedSources;
       out_llm_request := None |}
  else
    let '(db1, userRow) := insert_chat db notebookId (human_message content) in
    match searchDocuments vector cosine_distance generateEmbeddings
            (documents db1) content notebookId default_limit with
    | None =>
        {| out_db := db1; out_response := InternalError;
           out_llm_request := None |}
    | Some relevantDocs =>
        let messages :=
          turn_messages (chat_histories db1) notebookId content relevantDocs in
        let rq := chat_request (llm_configs db1) messages ∅ in
        match generateChatResponse transport (llm_configs db1) messages ∅ with
        | None =>
            {| out_db := db1; out_response := InternalError;
               out_llm_request := rq |}
        | Some aiResponse =>
            let processedResponse :=
              processResponseWithCitations (text aiResponse) relevantDocs in
            let '(db2, aiRow) :=
              insert_chat db1 notebookId
                (ai_message (stringify processedResponse)
                   (reply_provider aiResponse) (reply_model aiResponse)) in
            {| out_db := db2; out_response := Json userRow aiRow;
               out_llm_request := rq |}
        end
    end.

End Route.

Arguments notebooks {vector} _.
Arguments sources {vector} _.
Arguments documents {vector} _.
Arguments llm_configs {vector} _.
Arguments chat_histories {vector} _.
Arguments next_chat_id {vector} _.
Arguments insert_chat {vector} _ _ _.
Arguments notebookCheck {vector} _ _ _.
Arguments completed_sources {vector} _ _.
Arguments out_db {vector} _.
Arguments out_response {vector} _.
Arguments out_llm_request {vector} _.

(** *** Citations *)

Lemma doc_for_some docs index :
  docs <> [] ->
  exists d, doc_for docs index = Some d
            /\ docs !! (index mod length docs)%nat = Some d.
Proof.
  intros Hne. destruct docs as [|d0 docs']; [congruence|].
  unfold doc_for.
  destruct (lookup_lt_is_Some_2 (d0 :: docs')
              (index mod length (d0 :: docs'))%nat) as [d Hd].
  { apply Nat.mod_upper_bound. simpl. lia. }
  exists d. auto.
Qed.

Definition segment_at (index : nat) (paragraph : jsstring) : segment :=
  {| seg_text := paragraph; seg_citation_id := Some (Z.of_nat index + 1) |}.

Definition citation_at (docs : list result_row) (d0 : result_row)
  (index : nat) (paragraph : jsstring) : citation :=
  make_citation (Z.of_nat index + 1) (default d0 (doc_for docs index))
    paragraph.

Lemma forEach_paragraph_closed docs d0 :
  docs <> [] ->
  forall ps index acc,
    forEach_paragraph docs index ps acc
    = {| segments := segments acc
           ++ imap (fun i => segment_at (index + i)) ps;
         citations := citations acc
           ++ imap (fun i => citation_at docs d0 (index + i)) ps |}.
Proof.
  intros Hne. induction ps as [|p rest IH]; intros index acc.
  - simpl. rewrite !app_nil_r. destruct acc; reflexivity.
  - cbn [forEach_paragraph]. rewrite IH. unfold visit_paragraph.
    destruct (doc_for_some docs index Hne) as (d & Hd & _).
    cbn [imap]. unfold citation_at at 2. rewrite Nat.add_0_r, Hd.
    cbn [segments citations default]. rewrite <- !app_assoc.
    f_equal; f_equal; cbn [app]; f_equal; apply imap_ext; intros i x _;
      cbn; f_equal; lia.
Qed.

Lemma substring_prefix s n :
  0 <= n -> substring s 0 n = take (Z.to_nat n) s.
Proof.
  intros Hn. cbv beta zeta delta [substring clamp str_length].
  replace (Z.to_nat (Z.min (Z.min (Z.max 0 0) (Z.of_nat (length s)))
                       (Z.min (Z.max n 0) (Z.of_nat (length s)))))
    with O by lia.
  rewrite drop_0.
  destruct (Z.le_gt_cases n (Z.of_nat (length s))).
  - f_equal. lia.
  - rewrite !take_ge by lia. reflexivity.
Qed.


(** C5, as stated, fails on the excerpt: for a chunk of 201 characters the
    citation's excerpt has 203 characters, the first 200 of the chunk and
    three dots. *)
Lemma excerpt_longer_than_200 :
  let chunk :=
    {| row_id := 7; row_content := replicate 201 97%N;
       row_metadata :=
         {| notebook_id := 1; source_id := 3;
            source_title := Some (js "notes"); source_type := Some (js "pdf");
            chunk_index := 0; notebook_title := js "nb" |};
       similarity := 1%Q |} in
  map (fun c => str_length (excerpt c))
    (citations (processResponseWithCitations (js "An answer.") [chunk]))
  = [203].
Proof. vm_compute. reflexivity. Qed.

(** C5, amended. With [k > 0] retrieved chunks, the [i]-th non-empty
    paragraph of the answer becomes segment [i] with citation id [i + 1],
    and citation [i] is built from chunk [i mod k]: its source id, its
    title (['Fuente desconocida'] when the chunk has none or an empty one),
    its kind (['text'] likewise), and as excerpt the first 200 characters
    of the chunk followed by three dots, 203 characters at most. *)
Theorem citations_round_robin text relevantDocs i paragraph :
  relevantDocs <> [] ->
  answer_paragraphs text !! i = Some paragraph ->
  let r := processResponseWithCitations text relevantDocs in
  length (segments r) = length (answer_paragraphs text)
  /\ length (citations r) = length (answer_paragraphs text)
  /\ segments r !! i
     = Some {| seg_text := paragraph;
               seg_citation_id := Some (Z.of_nat i + 1) |}
  /\ exists chunk c,
       relevantDocs !! (i mod length relevantDocs)%nat = Some chunk
       /\ citations r !! i = Some c
       /\ citation_id c = Z.of_nat i + 1
       /\ cit_source_id c = source_id (row_metadata chunk)
       /\ cit_source_title c
          = or_default (source_title (row_metadata chunk))
              (js "Fuente desconocida")
       /\ cit_source_type c
          = or_default (source_type (row_metadata chunk)) (js "text")
       /\ excerpt c = take 200 (row_content chunk) ++ js "..."
       /\ str_length (excerpt c) <= 203.
Proof.
  intros Hne Hp r. subst r. unfold processResponseWithCitations.
  destruct relevantDocs as [|d0 docs'] eqn:Edocs; [congruence|].
  rewrite <- Edocs in *.
  rewrite (forEach_paragraph_closed relevantDocs d0 Hne).
  cbn [segments citations app].
  rewrite !length_imap, !list_lookup_imap, Hp. cbn [fmap option_fmap option_map].
  repeat split.
  destruct (doc_for_some relevantDocs i Hne) as (d & Hd & Hl).
  exists d. eexists. split; [exact Hl|]. split; [reflexivity|].
  unfold citation_at. cbn [Nat.add]. rewrite Hd.
  unfold default, from_option, Datatypes.id, make_citation.
  cbn [citation_id cit_source_id cit_source_title cit_source_type excerpt].
  rewrite substring_prefix by lia.
  repeat split. unfold str_length. rewrite length_app, length_take.
  change (length (js "...")) with 3%nat. change (Z.to_nat 200) with 200%nat.
  lia.
Qed.

Definition chunk_of (n src : Z) (title : option jsstring) : result_row :=
  {| row_id := n; row_content := js "chunk text";
     row_metadata :=
       {| notebook_id := 1; source_id := src; source_title := title;
          source_type := Some (js "pdf"); chunk_index := n;
          notebook_title := js "nb" |};
     similarity := 1%Q |}.

Definition three_chunks : list result_row :=
  [chunk_of 0 30 (Some (js "A")); chunk_of 1 31 None;
   chunk_of 2 32 (Some (js "C"))].

Definition five_paragraphs : jsstring :=
  js "p0" ++ [LF; LF] ++ js "p1" ++ [LF; LF] ++ js "p2" ++ [LF; LF]
  ++ js "p3" ++ [LF; LF] ++ js "p4".

Lemma citations_round_robin_witness :
  three_chunks <> []
  /\ answer_paragraphs five_paragraphs !! 4%nat = Some (js "p4")
  /\ exists chunk c,
       three_chunks !! (4 mod length three_chunks)%nat = Some chunk
       /\ citations (processResponseWithCitations five_paragraphs three_chunks)
            !! 4%nat = Some c
       /\ cit_source_id c = source_id (row_metadata chunk)
       /\ cit_source_title c = js "Fuente desconocida".
Proof.
  assert (H1 : three_chunks <> []) by discriminate.
  assert (H2 : answer_paragraphs five_paragraphs !! 4%nat = Some (js "p4"))
    by reflexivity.
  split; [exact H1|]. split; [exact H2|].
  destruct (citations_round_robin five_paragraphs three_chunks 4 (js "p4")
              H1 H2)
    as (_ & _ & _ & chunk & c & Hchunk & Hc & _ & Hsrc & Htitle & _).
  exists chunk, c. split; [exact Hchunk|]. split; [exact Hc|].
  split; [exact Hsrc|]. rewrite Htitle.
  vm_compute in Hchunk. injection Hchunk as <-. reflexivity.
Defined.

(** Three chunks and five paragraphs: the source ids cited are those of
    chunks 0, 1, 2, 0, 1. *)
Example five_segments_three_chunks :
  map cit_source_id
    (citations (processResponseWithCitations five_paragraphs three_chunks))
  = [30; 31; 32; 30; 31]
  /\ map seg_citation_id
       (segments (processResponseWithCitations five_paragraphs three_chunks))
     = [Some 1; Some 2; Some 3; Some 4; Some 5].
Proof. split; reflexivity. Qed.


(** *** The history window and the roles *)

(** The role an adapter gives to every message that is not a user
    message. *)
Definition neutral_role (p : jsstring) : jsstring :=
  if bool_decide (p = js "gemini") then js "model" else js "assistant".

(** No row of the history has a [role] property. *)
Definition roleless (rows : list chat_row) : Prop :=
  Forall (fun r => message r !! "role" = None) rows.

(** Every id in the table was handed out by the sequence already. *)
Definition ids_below (next : Z) (rows : list chat_row) : Prop :=
  Forall (fun r => chat_id r < next) rows.

Lemma human_message_roleless content : human_message content !! "role" = None.
Proof. reflexivity. Qed.

Lemma ai_message_roleless content p m : ai_message content p m !! "role" = None.
Proof. reflexivity. Qed.

Lemma map_role_roleless other (m : gmap string jsval) :
  m !! "role" = None -> map_role other m = (other, get m "content").
Proof. unfold map_role, get. intros ->. reflexivity. Qed.

Lemma map_role_user_turn other content :
  map_role other (user_turn content) = (js "user", JStr content).
Proof. reflexivity. Qed.

Lemma get_human_content content : get (human_message content) "content" = JStr content.
Proof. reflexivity. Qed.

(** The [messages] entry that replaces the adapter's own: the one of the
    stored configuration, for the two adapters that spread it over the
    request body. *)
Definition stored_messages (cfg : llm_config) : option jsval :=
  if bool_decide (provider cfg = js "openai")
     || bool_decide (provider cfg = js "anthropic")
  then config cfg !! "messages"
  else None.

Lemma build_request_messages cfg messages options rq :
  build_request cfg messages options = Some rq ->
  rq_provider rq = provider cfg
  /\ rq_messages rq
     = match stored_messages cfg with
       | Some v => Stored v
       | None =>
           Formatted (map (map_role (neutral_role (provider cfg))) messages)
       end.
Proof.
  unfold build_request, neutral_role, stored_messages.
  destruct cfg as [p mdl key url act dft c]. cbn [provider config].
  repeat case_bool_decide; subst; try discriminate;
    intros [= <-]; (split; [reflexivity|]);
    cbn [rq_messages generateOpenAIResponse_request
         generateAnthropicResponse_request generateGeminiResponse_request
         generateOllamaResponse_request orb];
    try reflexivity;
    unfold body_messages; cbn [config]; destruct (c !! "messages");
    reflexivity.
Qed.

Lemma build_request_chat_provider cfg messages options :
  In (provider cfg) chat_providers ->
  exists rq, build_request cfg messages options = Some rq.
Proof.
  unfold build_request, chat_providers. cbn [In]. intros H.
  repeat case_bool_decide; eauto. exfalso. intuition congruence.
Qed.

Lemma chat_request_messages configs messages options rq :
  chat_request configs messages options = Some rq ->
  exists cfg,
    getActiveLLMConfig configs = Some cfg
    /\ rq_provider rq = provider cfg
    /\ rq_messages rq
       = match stored_messages cfg with
         | Some v => Stored v
         | None =>
             Formatted (map (map_role (neutral_role (provider cfg))) messages)
         end.
Proof.
  unfold chat_request. destruct (getActiveLLMConfig configs) as [cfg|];
    simpl; [|discriminate].
  intros H. apply build_request_messages in H. destruct H as [Hp Hm].
  exists cfg. auto.
Qed.

Lemma insert_by_id_desc_elem r x l :
  x ∈ insert_by_id_desc r l -> x = r \/ x ∈ l.
Proof.
  induction l as [|y l IH]; simpl.
  - intros H. apply list_elem_of_singleton in H. auto.
  - destruct (chat_id y <=? chat_id r).
    + intros H. apply elem_of_cons in H. tauto.
    + intros H. apply elem_of_cons in H. destruct H as [->|H].
      * right. left.
      * destruct (IH H) as [->|H']; [auto|right; right; exact H'].
Qed.

Lemma order_by_id_desc_elem x l : x ∈ order_by_id_desc l -> x ∈ l.
Proof.
  induction l as [|y l IH]; simpl; [auto|].
  intros H. apply insert_by_id_desc_elem in H. destruct H as [->|H].
  - left.
  - right. apply IH, H.
Qed.

Lemma recent_history_elem rows notebookId m :
  m ∈ recent_history rows notebookId ->
  exists r, r ∈ rows /\ session_id r = notebookId /\ message r = m.
Proof.
  unfold recent_history. rewrite elem_of_reverse. intros H.
  apply list_elem_of_fmap in H. destruct H as (r & -> & Hr).
  apply subseteq_take, order_by_id_desc_elem in Hr.
  apply list_elem_of_In, filter_In in Hr. destruct Hr as [Hr Hs].
  exists r. split; [apply list_elem_of_In, Hr|].
  split; [apply Z.eqb_eq, Hs|reflexivity].
Qed.

Lemma recent_history_roleless rows notebookId :
  roleless rows ->
  Forall (fun m : gmap string jsval => m !! "role" = None)
    (recent_history rows notebookId).
Proof.
  intros Hrows. apply Forall_forall. intros m Hm.
  apply recent_history_elem in Hm. destruct Hm as (r & Hr & _ & <-).
  unfold roleless in Hrows. eapply Forall_forall in Hrows; eassumption.
Qed.

(** The newest row sorts first. *)
Lemma order_by_id_desc_newest rows r :
  Forall (fun x => chat_id x < chat_id r) rows ->
  order_by_id_desc (rows ++ [r]) = r :: order_by_id_desc rows.
Proof.
  unfold order_by_id_desc.
  induction 1 as [|x rows Hx _ IH]; simpl; [reflexivity|].
  rewrite IH. simpl.
  destruct (Z.leb_spec (chat_id r) (chat_id x)); [lia|reflexivity].
Qed.

Lemma recent_history_newest rows notebookId next m :
  ids_below next rows ->
  exists older,
    recent_history
      (rows ++ [{| chat_id := next; session_id := notebookId; message := m |}])
      notebookId
    = older ++ [m].
Proof.
  intros Hids. unfold recent_history.
  rewrite List.filter_app. cbn [List.filter session_id].
  rewrite Z.eqb_refl.
  rewrite order_by_id_desc_newest.
  - cbn [take map]. rewrite reverse_cons. eauto.
  - apply Forall_forall. intros x Hx. simpl.
    apply list_elem_of_In, filter_In in Hx. destruct Hx as [Hx _].
    unfold ids_below in Hids.
    eapply Forall_forall in Hids; [exact Hids|apply list_elem_of_In, Hx].
Qed.


(** *** The turn *)

Section RouteFacts.

Context (vector : Type) (cosine_distance : vector -> vector -> Q)
  (generateEmbeddings : jsstring -> option vector)
  (transport : provider_request -> option jsstring)
  (stringify : processed -> jsstring).

Local Abbreviation turn :=
  (send vector cosine_distance generateEmbeddings transport stringify).

(** C4. A turn against a notebook none of whose sources is [completed]
    leaves every table as it was (no AI message, and no user message
    either), calls no provider, and is answered with an error; when the
    request carries a message and the notebook is the user's, that error is
    [NoProcessedSources]. *)
Theorem no_completed_source_no_answer (db : database vector)
  userId notebookId content :
  completed_sources db notebookId = 0 ->
  out_db (turn db userId notebookId content) = db
  /\ out_llm_request (turn db userId notebookId content) = None
  /\ (exists status error,
        out_response (turn db userId notebookId content) = Error status error)
  /\ (content <> [] -> notebookCheck db notebookId userId <> [] ->
      out_response (turn db userId notebookId content) = NoProcessedSources).
Proof.
  intros Hzero. unfold send.
  destruct content as [|c content']; cbn [truthy_str negb].
  - repeat split; [unfold MessageRequired; eauto|congruence].
  - case_bool_decide as Hnb.
    + repeat split; [unfold NotebookNotFound; eauto|congruence].
    + rewrite Hzero. cbn [Z.eqb].
      repeat split. unfold NoProcessedSources; eauto.
Qed.

(** The request of the turn does not depend on the provider, and the
    provider's answer to it decides the turn. *)
Lemma send_reaches_provider (db : database vector)
  userId notebookId content relevantDocs cfg rq :
  content <> [] ->
  notebookCheck db notebookId userId <> [] ->
  completed_sources db notebookId <> 0 ->
  searchDocuments vector cosine_distance generateEmbeddings (documents db)
    content notebookId default_limit = Some relevantDocs ->
  getActiveLLMConfig (llm_configs db) = Some cfg ->
  build_request cfg
    (turn_messages
       (chat_histories (insert_chat db notebookId (human_message content)).1)
       notebookId content relevantDocs) ∅ = Some rq ->
  forall provider_answers : provider_request -> option jsstring,
    send vector cosine_distance generateEmbeddings provider_answers stringify
      db userId notebookId content
    = match provider_answers rq with
      | None =>
          {| out_db := (insert_chat db notebookId (human_message content)).1;
             out_response := InternalError;
             out_llm_request := Some rq |}
      | Some answer =>
          {| out_db :=
               (insert_chat
                  (insert_chat db notebookId (human_message content)).1
                  notebookId
                  (ai_message
                     (stringify
                        (processResponseWithCitations answer relevantDocs))
                     (provider cfg) (model cfg))).1;
             out_response :=
               Json (insert_chat db notebookId (human_message content)).2
                 (insert_chat
                    (insert_chat db notebookId (human_message content)).1
                    notebookId
                    (ai_message
                       (stringify
                          (processResponseWithCitations answer relevantDocs))
                       (provider cfg) (model cfg))).2;
             out_llm_request := Some rq |}
      end.
Proof.
  intros Hc Hnb Hsrc Hsearch Hcfg Hrq t. unfold send.
  destruct content as [|c content']; [congruence|]. cbn [truthy_str negb].
  rewrite bool_decide_eq_false_2 by exact Hnb.
  apply Z.eqb_neq in Hsrc. rewrite Hsrc.
  cbn [insert_chat documents llm_configs chat_histories fst snd] in *.
  rewrite Hsearch. unfold chat_request, generateChatResponse.
  rewrite Hcfg. cbn [mbind option_bind]. rewrite Hrq.
  cbn [mbind option_bind].
  destruct (build_request_messages _ _ _ _ Hrq) as [Hp _].
  destruct (t rq) as [answer|]; cbn [mbind option_bind text reply_provider
                                     reply_model];
    [rewrite Hp|]; reflexivity.
Qed.

(** A turn that is answered passed the three checks, found its chunks and
    built a request. *)
Lemma send_json_inv (db : database vector)
  userId notebookId content userRow aiRow :
  out_response (turn db userId notebookId content) = Json userRow aiRow ->
  content <> []
  /\ notebookCheck db notebookId userId <> []
  /\ completed_sources db notebookId <> 0
  /\ exists relevantDocs cfg rq,
       searchDocuments vector cosine_distance generateEmbeddings
         (documents db) content notebookId default_limit = Some relevantDocs
       /\ getActiveLLMConfig (llm_configs db) = Some cfg
       /\ build_request cfg
            (turn_messages
               (chat_histories
                  (insert_chat db notebookId (human_message content)).1)
               notebookId content relevantDocs) ∅ = Some rq.
Proof.
  unfold send.
  destruct content as [|c content']; cbn [truthy_str negb]; [discriminate|].
  case_bool_decide as Hnb; [discriminate|].
  destruct (completed_sources db notebookId =? 0) eqn:Hsrc; [discriminate|].
  apply Z.eqb_neq in Hsrc.
  cbn [insert_chat documents llm_configs chat_histories fst].
  destruct (searchDocuments _ _ _ _ _ _ _) as [docs|]; [|discriminate].
  unfold generateChatResponse.
  destruct (getActiveLLMConfig (llm_configs db)) as [cfg|];
    cbn [mbind option_bind]; [|discriminate].
  destruct (build_request cfg _ ∅) as [rq|] eqn:Hrq;
    cbn [mbind option_bind]; [|discriminate].
  intros _. split; [discriminate|]. split; [exact Hnb|].
  split; [exact Hsrc|]. exists docs, cfg, rq. auto.
Qed.

Lemma turn_messages_roles rows notebookId content relevantDocs other :
  Forall (fun m : gmap string jsval => m !! "role" = None)
    (recent_history rows notebookId) ->
  map (map_role other) (turn_messages rows notebookId content relevantDocs)
  = (other, get (systemMessage relevantDocs) "content")
    :: map (fun m => (other, get m "content")) (recent_history rows notebookId)
    ++ [(js "user", JStr content)].
Proof.
  intros Hrows. unfold turn_messages. cbn [map]. rewrite map_app. cbn [map].
  rewrite map_role_user_turn. f_equal. f_equal.
  apply Forall_fmap_ext_1.
  eapply Forall_impl; [exact Hrows|].
  intros m Hm. apply map_role_roleless, Hm.
Qed.

(** C9, amended. The rows of the history carry no [role] and a turn keeps
    it so.  When a turn passes the three checks, finds its chunks and has
    an active configuration of a supported provider whose stored
    configuration does not replace the messages, there is one request,
    the same whatever the provider answers, in which every message of the
    loaded history window, human or AI, has the role ['assistant']
    (['model'] for Gemini); so has the system message; only the appended
    turn has the role ['user'].  That request is what the provider is
    called with: its answer to it is the text of the stored AI message,
    and its failure on it is the failure of the turn. *)
Theorem history_forwarded_as_assistant (db : database vector)
  userId notebookId content relevantDocs cfg :
  roleless (chat_histories db) ->
  content <> [] ->
  notebookCheck db notebookId userId <> [] ->
  completed_sources db notebookId <> 0 ->
  searchDocuments vector cosine_distance generateEmbeddings (documents db)
    content notebookId default_limit = Some relevantDocs ->
  getActiveLLMConfig (llm_configs db) = Some cfg ->
  In (provider cfg) chat_providers ->
  stored_messages cfg = None ->
  exists rq,
    rq_provider rq = provider cfg
    /\ rq_messages rq
       = Formatted
           ((neutral_role (provider cfg),
             get (systemMessage relevantDocs) "content")
            :: map (fun m => (neutral_role (provider cfg), get m "content"))
                 (recent_history
                    (chat_histories
                       (insert_chat db notebookId (human_message content)).1)
                    notebookId)
            ++ [(js "user", JStr content)])
    /\ forall provider_answers : provider_request -> option jsstring,
         let o :=
           send vector cosine_distance generateEmbeddings provider_answers
             stringify db userId notebookId content in
         roleless (chat_histories (out_db o))
         /\ out_llm_request o = Some rq
         /\ match provider_answers rq with
            | Some answer =>
                exists userRow aiRow,
                  out_response o = Json userRow aiRow
                  /\ message aiRow
                     = ai_message
                         (stringify
                            (processResponseWithCitations answer relevantDocs))
                         (provider cfg) (model cfg)
            | None => out_response o = InternalError
            end.
Proof.
  intros Hrows Hc Hnb Hsrc Hsearch Hcfg Hprov Hstored.
  destruct (build_request_chat_provider cfg
              (turn_messages
                 (chat_histories
                    (insert_chat db notebookId (human_message content)).1)
                 notebookId content relevantDocs) ∅ Hprov) as [rq Hrq].
  assert (Hrows1 : roleless
            (chat_histories
               (insert_chat db notebookId (human_message content)).1)).
  { cbn [insert_chat chat_histories fst]. apply Forall_app.
    split; [exact Hrows|].
    constructor; [apply human_message_roleless|constructor]. }
  exists rq. destruct (build_request_messages _ _ _ _ Hrq) as [Hp Hm].
  split; [exact Hp|]. split.
  - rewrite Hm, Hstored. f_equal. apply turn_messages_roles.
    apply recent_history_roleless, Hrows1.
  - intros t o. subst o.
    rewrite (send_reaches_provider db userId notebookId content relevantDocs
               cfg rq Hc Hnb Hsrc Hsearch Hcfg Hrq t).
    destruct (t rq) as [answer|]; cbn [out_db out_response out_llm_request].
    + split; [|split; [reflexivity|]].
      * cbn [insert_chat chat_histories fst] in *. apply Forall_app.
        split; [exact Hrows1|].
        constructor; [apply ai_message_roleless|constructor].
      * eexists. eexists. split; reflexivity.
    + split; [exact Hrows1|]. split; reflexivity.
Qed.

(** C10, amended. When the turn succeeds and the stored configuration does
    not replace the messages, the provider was called with a request whose
    message list ends with the user's message twice: the row stored at the
    start of the turn is the last element of the history window (forwarded
    with the role of an assistant message), and the appended user turn
    follows it.  The stored AI message is built from the provider's answer
    to that request, and whatever a provider answers to that request
    decides whether the turn succeeds. *)
Theorem user_message_sent_twice (db : database vector)
  userId notebookId content userRow aiRow :
  ids_below (next_chat_id db) (chat_histories db) ->
  (forall cfg, getActiveLLMConfig (llm_configs db) = Some cfg ->
               stored_messages cfg = None) ->
  out_response (turn db userId notebookId content) = Json userRow aiRow ->
  exists rq sys older answer relevantDocs,
    transport rq = Some answer
    /\ get (message aiRow) "content"
       = JStr (stringify (processResponseWithCitations answer relevantDocs))
    /\ message userRow = human_message content
    /\ recent_history
         (chat_histories (insert_chat db notebookId (human_message content)).1)
         notebookId
       = older ++ [human_message content]
    /\ rq_messages rq
       = Formatted
           (sys :: map (map_role (neutral_role (rq_provider rq))) older
              ++ [(neutral_role (rq_provider rq), JStr content);
                  (js "user", JStr content)])
    /\ out_llm_request (turn db userId notebookId content) = Some rq
    /\ forall provider_answers : provider_request -> option jsstring,
         let o :=
           send vector cosine_distance generateEmbeddings provider_answers
             stringify db userId notebookId content in
         match provider_answers rq with
         | Some _ => exists u a, out_response o = Json u a
         | None => out_response o = InternalError
         end.
Proof.
  intros Hids Hstored Hjson.
  destruct (send_json_inv db userId notebookId content userRow aiRow Hjson)
    as (Hc & Hnb & Hsrc & docs & cfg & rq & Hsearch & Hcfg & Hrq).
  pose proof (send_reaches_provider db userId notebookId content docs cfg rq
                Hc Hnb Hsrc Hsearch Hcfg Hrq) as Hsend.
  destruct (recent_history_newest (chat_histories db) notebookId
              (next_chat_id db) (human_message content) Hids)
    as [older Holder].
  destruct (build_request_messages _ _ _ _ Hrq) as [Hp Hm].
  rewrite (Hstored cfg Hcfg) in Hm.
  rewrite (Hsend transport) in Hjson |- *.
  destruct (transport rq) as [answer|] eqn:Hanswer;
    cbn [out_response out_llm_request] in Hjson |- *; [|discriminate].
  injection Hjson as <- <-.
  exists rq, (map_role (neutral_role (rq_provider rq)) (systemMessage docs)),
    older, answer, docs.
  split; [exact Hanswer|]. split; [reflexivity|]. split; [reflexivity|].
  split; [exact Holder|]. split.
  - rewrite Hm, Hp. f_equal. unfold turn_messages.
    cbn [insert_chat chat_histories fst] in *. rewrite Holder. cbn [map].
    rewrite !map_app. cbn [map]. rewrite <- app_assoc. cbn [app].
    rewrite map_role_user_turn.
    rewrite (map_role_roleless _ (human_message content))
      by apply human_message_roleless.
    rewrite get_human_content. reflexivity.
  - split; [reflexivity|]. intros t. rewrite (Hsend t).
    destruct (t rq); cbn [out_response]; eauto.
Qed.

End RouteFacts.

(** *** A notebook with one processed source and a short history *)

Definition sample_transport (rq : provider_request) : option jsstring :=
  Some (js "One." ++ [LF; LF] ++ js "Two.").

Definition sample_stringify (p : processed) : jsstring := js "{}".

Definition sample_database (status : jsstring) : database Z :=
  {| notebooks := [{| nb_id := 1; nb_user_id := 7 |}];
     sources := [{| st_notebook_id := 1; st_processing_status := status |};
                 {| st_notebook_id := 2;
                    st_processing_status := js "completed" |}];
     documents := VectorStore.sample_db;
     llm_configs := [plain_config (js "openai")];
     chat_histories :=
       [{| chat_id := 1; session_id := 1;
           message := human_message (js "hello") |};
        {| chat_id := 2; session_id := 1;
           message := ai_message (js "{}") (js "openai") (js "m") |}];
     next_chat_id := 3 |}.

Definition sample_turn (status : jsstring) : outcome Z :=
  send Z sample_distance sample_embed sample_transport sample_stringify
    (sample_database status) 7 1 (js "alpha").

Lemma no_completed_source_no_answer_witness :
  completed_sources (sample_database (js "processing")) 1 = 0
  /\ out_db (sample_turn (js "processing")) = sample_database (js "processing")
  /\ out_response (sample_turn (js "processing")) = NoProcessedSources.
Proof.
  assert (H : completed_sources (sample_database (js "processing")) 1 = 0)
    by reflexivity.
  destruct (no_completed_source_no_answer Z sample_distance sample_embed
              sample_transport sample_stringify
              (sample_database (js "processing")) 7 1 (js "alpha") H)
    as (Hdb & _ & _ & Hresp).
  split; [exact H|]. split; [exact Hdb|].
  apply Hresp; [discriminate|vm_compute; discriminate].
Defined.

Lemma sample_history_roleless :
  roleless (chat_histories (sample_database (js "completed"))).
Proof. repeat constructor. Defined.

Lemma history_forwarded_as_assistant_witness :
  roleless (chat_histories (sample_database (js "completed")))
  /\ exists rq msgs,
       rq_messages rq = Formatted msgs
       /\ map fst msgs
          = [js "assistant"; js "assistant"; js "assistant"; js "assistant";
             js "user"]
       /\ out_llm_request (sample_turn (js "completed")) = Some rq
       /\ exists userRow aiRow,
            out_response (sample_turn (js "completed")) = Json userRow aiRow.
Proof.
  split; [exact sample_history_roleless|].
  edestruct (history_forwarded_as_assistant Z sample_distance sample_embed
               sample_stringify (sample_database (js "completed")) 7 1
               (js "alpha"))
    as (rq & _ & Hm & Hall).
  - exact sample_history_roleless.
  - discriminate.
  - vm_compute. discriminate.
  - vm_compute. discriminate.
  - vm_compute. reflexivity.
  - reflexivity.
  - left. reflexivity.
  - reflexivity.
  - exists rq. eexists. split; [exact Hm|]. split; [vm_compute; reflexivity|].
    destruct (Hall sample_transport) as (_ & Hrq & Hanswer).
    split; [exact Hrq|].
    cbn [sample_transport] in Hanswer.
    destruct Hanswer as (u & a & Hjson & _). exists u, a. exact Hjson.
Defined.

Lemma user_message_sent_twice_witness :
  ids_below (next_chat_id (sample_database (js "completed")))
    (chat_histories (sample_database (js "completed")))
  /\ exists userRow aiRow,
       out_response (sample_turn (js "completed")) = Json userRow aiRow
       /\ exists rq sys older answer,
            sample_transport rq = Some answer
            /\ rq_messages rq
               = Formatted
                   (sys :: map (map_role (neutral_role (rq_provider rq))) older
                      ++ [(neutral_role (rq_provider rq), JStr (js "alpha"));
                          (js "user", JStr (js "alpha"))]).
Proof.
  assert (H : ids_below (next_chat_id (sample_database (js "completed")))
                (chat_histories (sample_database (js "completed")))).
  { repeat constructor. }
  split; [exact H|].
  eexists. eexists. split; [vm_compute; reflexivity|].
  edestruct (user_message_sent_twice Z sample_distance sample_embed
               sample_transport sample_stringify
               (sample_database (js "completed")) 7 1 (js "alpha"))
    as (rq & sys & older & answer & docs & Hanswer & _ & _ & _ & Hmsgs & _);
    [exact H|intros cfg [= <-]; reflexivity|vm_compute; reflexivity|].
  exists rq, sys, older, answer. split; [exact Hanswer|exact Hmsgs].
Defined.

(** *** A stored configuration with a [messages] entry of its own *)

Definition canned_messages : jsval :=
  JArr [JObj [("role", JStr (js "user"));
              ("content", JStr (js "Say hello."))]].

Definition canned_config (p : jsstring) : llm_config :=
  {| provider := p; model := js "m"; api_key := js "k"; base_url := [];
     is_active := true; is_default := true;
     config := <["messages" := canned_messages]> ∅ |}.

Definition canned_database (p : jsstring) : database Z :=
  {| notebooks := notebooks (sample_database (js "completed"));
     sources := sources (sample_database (js "completed"));
     documents := documents (sample_database (js "completed"));
     llm_configs := [canned_config p];
     chat_histories := chat_histories (sample_database (js "completed"));
     next_chat_id := next_chat_id (sample_database (js "completed")) |}.

(** A provider that answers the stored conversation and nothing else. *)
Definition answers_canned_only (rq : provider_request) : option jsstring :=
  match rq_messages rq with
  | Stored (JArr [JObj [("role", JStr _); ("content", JStr _)]]) =>
      Some (js "Hello.")
  | _ => None
  end.

Definition canned_turn (p : jsstring) : outcome Z :=
  send Z sample_distance sample_embed answers_canned_only sample_stringify
    (canned_database p) 7 1 (js "alpha").

(** C9, as stated, fails when the stored configuration of an OpenAI
    provider has a [messages] entry: the turn loads three messages of the
    history, yet the request body holds the stored entry in their place,
    and the provider, which here answers nothing but that entry, answers
    the turn. *)
Lemma stored_messages_replace_history :
  roleless (chat_histories (canned_database (js "openai")))
  /\ length
       (recent_history
          (chat_histories
             (insert_chat (canned_database (js "openai")) 1
                (human_message (js "alpha"))).1) 1) = 3%nat
  /\ (exists rq,
        out_llm_request (canned_turn (js "openai")) = Some rq
        /\ rq_provider rq = js "openai"
        /\ rq_messages rq = Stored canned_messages)
  /\ exists userRow aiRow,
       out_response (canned_turn (js "openai")) = Json userRow aiRow
       /\ get (message aiRow) "provider" = JStr (js "openai").
Proof.
  split; [repeat constructor|]. split; [reflexivity|]. split.
  - eexists. split; [vm_compute; reflexivity|]. split; reflexivity.
  - eexists. eexists. split; vm_compute; reflexivity.
Qed.

(** C10, as stated, fails likewise for Anthropic: the turn succeeds, and
    the message sequence the provider was called with is the stored one,
    in which the user's message does not occur at all. *)
Lemma stored_messages_replace_user_message :
  (exists userRow aiRow,
     out_response (canned_turn (js "anthropic")) = Json userRow aiRow
     /\ message userRow = human_message (js "alpha"))
  /\ exists rq,
       out_llm_request (canned_turn (js "anthropic")) = Some rq
       /\ answers_canned_only rq = Some (js "Hello.")
       /\ rq_messages rq
          = Stored (JArr [JObj [("role", JStr (js "user"));
                                ("content", JStr (js "Say hello."))]])
       /\ forall msgs, rq_messages rq <> Formatted msgs.
Proof.
  split.
  - eexists. eexists. split; vm_compute; reflexivity.
  - eexists. split; [vm_compute; reflexivity|].
    split; [reflexivity|]. split; [reflexivity|]. discriminate.
Qed.

End Chat.

(** ** The ingestion run ([processDocument], documentProcessor.js) *)
Module Ingest.
Import JS JSVal VectorStore LLM Chunker.

(** A row of [sources]; [content] is empty until there is one. *)
Record source : Type := {
  src_id : ident;
  src_notebook_id : ident;
  src_title : jsstring;
  src_type : jsstring;
  src_content : jsstring;
  src_file_path : jsstring;
  src_url : jsstring;
  src_summary : jsstring;
  processing_status : jsstring
}.

Definition completed : jsstring := js "completed".
Definition failed : jsstring := js "failed".

(** ['Cuaderno sin titulo'], with its accent. *)
Definition untitled_notebook : jsstring :=
  js "Cuaderno sin t" ++ [237%N] ++ js "tulo".

Definition summary_placeholder : jsstring :=
  js "No se pudo generar un resumen para este contenido.".

Definition summary_instruction : jsstring :=
  js "Eres un asistente experto en resumir documentos. Genera un resumen conciso (m"
  ++ [225%N]
  ++ js "ximo 200 palabras) del siguiente texto, capturando los puntos clave y la informaci"
  ++ [243%N] ++ js "n m" ++ [225%N] ++ js "s importante.".

Definition simulated_note (service : jsstring) : jsstring :=
  [LF; LF] ++ js "Esta es una implementaci" ++ [243%N]
  ++ js "n simulada. En una implementaci" ++ [243%N]
  ++ js "n real, se utilizar" ++ [237%N] ++ js "a " ++ service.

(** [extractTextFromYouTube] *)
Definition extractTextFromYouTube (url : jsstring) : jsstring :=
  js "Transcripci" ++ [243%N] ++ js "n de video de YouTube: " ++ url
  ++ simulated_note
       (js "la API de YouTube o un servicio de transcripci" ++ [243%N]
        ++ js "n para obtener el contenido del video.").

Section Run.

Variable vector : Type.
Variable generateEmbeddings : jsstring -> option vector.
Variable transport : provider_request -> option jsstring.
(** The readers of files and pages; [None] when they throw. *)
Variable extractTextFromPDF : jsstring -> option jsstring.
Variable extractTextFromFile : jsstring -> option jsstring.
Variable extractTextFromWebsite : jsstring -> option jsstring.
(** [path.basename] *)
Variable basename : jsstring -> jsstring.

Record state : Type := {
  sources : list source;
  notebooks : list (ident * option jsstring);
  llm_configs : list llm_config;
  documents : list (document vector);
  next_document_id : ident
}.

(** [transcribeAudio] *)
Definition transcribeAudio (filePath : jsstring) : jsstring :=
  js "Transcripci" ++ [243%N] ++ js "n de audio: " ++ basename filePath
  ++ simulated_note
       (js "un servicio de transcripci" ++ [243%N]
        ++ js "n como Whisper API para convertir el audio a texto.").

(** [generateSummary]: a failure of the provider is caught and replaced
    by the placeholder. *)
Definition generateSummary (st : state) (extracted : jsstring) : jsstring :=
  let truncatedText := substring extracted 0 5000 in
  let systemPrompt : gmap string jsval :=
    <["role" := JStr (js "system")]>
      (<["content" := JStr summary_instruction]> ∅) in
  let userPrompt : gmap string jsval :=
    <["role" := JStr (js "user")]> (<["content" := JStr truncatedText]> ∅) in
  match generateChatResponse transport (llm_configs st)
          [systemPrompt; userPrompt] ∅ with
  | Some response => text response
  | None => summary_placeholder
  end.

(** The [switch (source.type)]; [None] when the extractor throws or the
    type is not supported. *)
Definition extract (s : source) : option jsstring :=
  if bool_decide (src_type s = js "pdf") then
    extractTextFromPDF (src_file_path s)
  else if bool_decide (src_type s = js "text") then
    if truthy_str (src_content s) then Some (src_content s)
    else extractTextFromFile (src_file_path s)
  else if bool_decide (src_type s = js "website") then
    extractTextFromWebsite (src_url s)
  else if bool_decide (src_type s = js "youtube") then
    Some (extractTextFromYouTube (src_url s))
  else if bool_decide (src_type s = js "audio") then
    Some (transcribeAudio (src_file_path s))
  else None.

(** [SELECT * FROM sources WHERE id = $1], first row. *)
Definition find_source (st : state) (sourceId : ident) : option source :=
  head (List.filter (fun s => src_id s =? sourceId) (sources st)).

(** [notebookResult.rows[0]?.title || 'Cuaderno sin titulo'] *)
Definition notebook_title_of (st : state) (notebookId : ident) : jsstring :=
  match List.filter (fun n => n.1 =? notebookId) (notebooks st) with
  | (_, Some (c :: t)) :: _ => c :: t
  | _ => untitled_notebook
  end.

(** [UPDATE sources SET content = $1, summary = $2, processing_status = $3
     WHERE id = $4] *)
Definition update_extracted (st : state) (sourceId : ident)
  (extracted summary status : jsstring) : state :=
  {| sources :=
       map (fun s =>
              if src_id s =? sourceId then
                {| src_id := src_id s; src_notebook_id := src_notebook_id s;
                   src_title := src_title s; src_type := src_type s;
                   src_content := extracted;
                   src_file_path := src_file_path s; src_url := src_url s;
                   src_summary := summary; processing_status := status |}
              else s)
         (sources st);
     notebooks := notebooks st; llm_configs := llm_configs st;
     documents := documents st; next_document_id := next_document_id st |}.

(** [UPDATE sources SET processing_status = $1 WHERE id = $2] *)
Definition update_status (st : state) (sourceId : ident) (status : jsstring)
  : state :=
  {| sources :=
       map (fun s =>
              if src_id s =? sourceId then
                {| src_id := src_id s; src_notebook_id := src_notebook_id s;
                   src_title := src_title s; src_type := src_type s;
                   src_content := src_content s;
                   src_file_path := src_file_path s; src_url := src_url s;
                   src_summary := src_summary s; processing_status := status |}
              else s)
         (sources st);
     notebooks := notebooks st; llm_configs := llm_configs st;
     documents := documents st; next_document_id := next_document_id st |}.

(** [splitTextIntoChunks(extractedText)] with the default sizes; the fuel
    is enough for the call to return ([chunks_of_returns]). *)
Definition chunks_of (extracted : jsstring) : list jsstring :=
  default []
    (splitTextIntoChunks (length extracted) extracted
       default_maxChunkSize default_overlap).

(** [for (const [index, chunk] of chunks.entries()) await insertDocument(...)];
    the flag tells whether the loop ran to its end ([false]: an insertion
    threw). *)
Fixpoint insert_chunks (st : state) (s : source) (notebookTitle : jsstring)
  (index : Z) (chunks : list jsstring) : state * bool :=
  match chunks with
  | [] => (st, true)
  | chunk :: rest =>
      match insertDocument vector generateEmbeddings (documents st)
              (next_document_id st) chunk
              {| notebook_id := src_notebook_id s; source_id := src_id s;
                 source_title := Some (src_title s);
                 source_type := Some (src_type s);
                 chunk_index := index; notebook_title := notebookTitle |}
      with
      | None => (st, false)
      | Some (docs, _) =>
          insert_chunks
            {| sources := sources st; notebooks := notebooks st;
               llm_configs := llm_configs st; documents := docs;
               next_document_id := next_document_id st + 1 |}
            s notebookTitle (index + 1) rest
      end
  end.

(** What a run leaves: the tables and, in order, the values it wrote to
    [processing_status]. *)
Record run : Type := {
  final : state;
  status_log : list jsstring
}.

(** The [try] block: the tables, the values written, and whether the block
    ran to its end. *)
Definition try_block (st : state) (sourceId : ident)
  : state * list jsstring * bool :=
  match find_source st sourceId with
  | None => (st, [], false)
  | Some s =>
      let notebookTitle := notebook_title_of st (src_notebook_id s) in
      match extract s with
      | None => (st, [], false)
      | Some extractedText =>
          let summary := generateSummary st extractedText in
          let st1 :=
            update_extracted st sourceId extractedText summary completed in
          let '(st2, finished) :=
            insert_chunks st1 s notebookTitle 0 (chunks_of extractedText) in
          (st2, [completed], finished)
      end
  end.

(** [processDocument]: the [catch] writes [failed]. *)
Definition processDocument (st : state) (sourceId : ident) : run :=
  let '(st1, log, finished) := try_block st sourceId in
  if finished then {| final := st1; status_log := log |}
  else {| final := update_status st1 sourceId failed;
          status_log := log ++ [failed] |}.

(** The text the run extracts, if it gets that far. *)
Definition extracted_text (st : state) (sourceId : ident) : option jsstring :=
  s ← find_source st sourceId; extract s.

End Run.

Arguments sources {vector} _.
Arguments documents {vector} _.
Arguments final {vector} _.
Arguments status_log {vector} _.


(** *** The status writes of a run *)

Section RunFacts.

Context (vector : Type) (generateEmbeddings : jsstring -> option vector)
  (transport : provider_request -> option jsstring)
  (extractTextFromPDF extractTextFromFile extractTextFromWebsite :
     jsstring -> option jsstring)
  (basename : jsstring -> jsstring).

Local Abbreviation run_of :=
  (processDocument vector generateEmbeddings transport extractTextFromPDF
     extractTextFromFile extractTextFromWebsite basename).
Local Abbreviation text_of :=
  (extracted_text vector extractTextFromPDF extractTextFromFile
     extractTextFromWebsite basename).

(** The embedding of a chunk succeeds. *)
Definition embeds (chunk : jsstring) : bool :=
  match generateEmbeddings chunk with Some _ => true | None => false end.

Lemma chunks_of_returns extracted :
  splitTextIntoChunks (length extracted) extracted
    default_maxChunkSize default_overlap = Some (chunks_of extracted).
Proof.
  unfold chunks_of.
  destruct (ChunkerFacts.split_terminates (length extracted) extracted
              default_maxChunkSize default_overlap) as [tcs Htcs];
    [reflexivity|lia|].
  rewrite (ChunkerFacts.traced_some _ _ _ _ _ Htcs). reflexivity.
Qed.

Lemma insert_chunks_spec s title : forall chunks (st : state vector) index,
  (insert_chunks vector generateEmbeddings st s title index chunks).2
  = forallb embeds chunks
  /\ sources (insert_chunks vector generateEmbeddings st s title index chunks).1
     = sources st.
Proof.
  induction chunks as [|c rest IH]; intros st index; simpl; [auto|].
  unfold insertDocument, embeds.
  destruct (generateEmbeddings c) as [e|]; simpl; [|auto].
  destruct (IH {| sources := sources st; notebooks := notebooks vector st;
                  llm_configs := llm_configs vector st;
                  documents := documents st ++
                    [{| id := next_document_id vector st; content := c;
                        meta := {| notebook_id := src_notebook_id s;
                                   source_id := src_id s;
                                   source_title := Some (src_title s);
                                   source_type := Some (src_type s);
                                   chunk_index := index;
                                   notebook_title := title |};
                        embedding := e |}];
                  next_document_id := next_document_id vector st + 1 |}
              (index + 1)) as [H1 H2].
  split; [exact H1|exact H2].
Qed.

Lemma updated_status (l : list source) sourceId status (f : source -> source) s :
  (forall x, processing_status (f x) = status /\ src_id (f x) = src_id x) ->
  s ∈ map (fun x => if src_id x =? sourceId then f x else x) l ->
  src_id s = sourceId ->
  processing_status s = status.
Proof.
  intros Hf Hs Hid. apply list_elem_of_fmap in Hs.
  destruct Hs as (x & -> & _).
  destruct (Z.eqb_spec (src_id x) sourceId); [apply Hf|congruence].
Qed.

(** C3, amended. A run writes [processing_status] once or twice: [failed]
    alone when the source is missing, its type unsupported or its
    extraction throws; [completed] alone when every chunk is embedded and
    inserted; [completed] and then [failed] when the insertion of a chunk
    throws.  So [failed] is never followed by another write, [completed]
    is followed by [failed] in that last case, and the status the source
    ends with is the last value written. *)
Theorem status_writes (st : state vector) sourceId :
  status_log (run_of st sourceId)
  = match text_of st sourceId with
    | None => [failed]
    | Some extracted =>
        if forallb embeds (chunks_of extracted) then [completed]
        else [completed; failed]
    end
  /\ forall s,
       s ∈ sources (final (run_of st sourceId)) ->
       src_id s = sourceId ->
       Some (processing_status s) = last (status_log (run_of st sourceId)).
Proof.
  unfold processDocument, try_block, extracted_text.
  destruct (find_source vector st sourceId) as [src|]; cbn [mbind option_bind].
  2:{ split; [reflexivity|]. cbn [final status_log app last sources update_status].
      intros s Hs Hid. f_equal.
      eapply updated_status; [|exact Hs|exact Hid]. auto. }
  destruct (extract _ _ _ _ src) as [extracted|].
  2:{ split; [reflexivity|]. cbn [final status_log app last sources update_status].
      intros s Hs Hid. f_equal.
      eapply updated_status; [|exact Hs|exact Hid]. auto. }
  match goal with
  | |- context [insert_chunks ?v ?g ?st1 ?s ?t ?i ?cs] =>
      destruct (insert_chunks_spec s t cs st1 i) as [Hflag Hsrc];
      destruct (insert_chunks v g st1 s t i cs) as [st2 finished]
  end.
  cbn [fst snd] in Hflag, Hsrc. subst finished.
  destruct (forallb embeds (chunks_of extracted)).
  - split; [reflexivity|]. cbn [final status_log last].
    rewrite Hsrc. cbn [sources update_extracted].
    intros s Hs Hid. f_equal.
    eapply updated_status; [|exact Hs|exact Hid]. auto.
  - split; [reflexivity|]. cbn [final status_log app last sources update_status].
    intros s Hs Hid. f_equal.
    eapply updated_status; [|exact Hs|exact Hid]. auto.
Qed.

End RunFacts.

(** *** A text source whose chunks cannot be embedded *)

Definition no_reader (path : jsstring) : option jsstring := None.
Definition no_provider (rq : provider_request) : option jsstring := None.

Definition hello_state : state Z :=
  {| sources :=
       [{| src_id := 1; src_notebook_id := 1; src_title := js "greeting";
           src_type := js "text"; src_content := js "Hello world.";
           src_file_path := []; src_url := []; src_summary := [];
           processing_status := js "processing" |}];
     notebooks := [(1, Some (js "nb"))];
     llm_configs := [];
     documents := [];
     next_document_id := 1 |}.

Definition hello_run (embed : jsstring -> option Z) : run Z :=
  processDocument Z embed no_provider no_reader no_reader no_reader
    (fun p => p) hello_state 1.

(** C3, as stated, fails: with an embedding provider that throws, the run
    first writes [completed], then [failed], and the source ends
    [failed]. *)
Lemma completed_then_failed :
  status_log (hello_run (fun _ => None)) = [completed; failed]
  /\ map processing_status (sources (final (hello_run (fun _ => None))))
     = [failed]
  /\ documents (final (hello_run (fun _ => None))) = [].
Proof. repeat split; vm_compute; reflexivity. Qed.

(** With a provider that answers, the same source ends [completed] with
    one chunk of index 0. *)
Example hello_world_ingested :
  status_log (hello_run sample_embed) = [completed]
  /\ map processing_status (sources (final (hello_run sample_embed)))
     = [completed]
  /\ map (fun d => (content d, chunk_index (meta d)))
       (documents (final (hello_run sample_embed)))
     = [(js "Hello world.", 0)].
Proof. repeat split; vm_compute; reflexivity. Qed.

End Ingest.

(** ** Sizes of the chunks *)
Module ChunkerBounds.
Import JS Chunker.

Lemma substring_length_bound s a n :
  0 <= n -> str_length (substring s a (a + n)) <= n.
Proof.
  intros Hn. cbv beta zeta delta [substring clamp str_length].
  rewrite length_take. lia.
Qed.

Lemma slide_windows_bounded maxc ov p : forall fuel i ws,
  0 <= maxc ->
  slide fuel maxc ov p i = Some ws ->
  Forall (fun c => str_length c <= maxc) ws.
Proof.
  induction fuel as [|f IH]; intros i ws Hm; simpl;
    (destruct (i <? str_length p); [|intros [= <-]; constructor]);
    [discriminate|].
  destruct (slide f maxc ov p (i + (maxc - ov))) as [ws'|] eqn:E; simpl;
    [|discriminate].
  intros [= <-]. constructor; [apply substring_length_bound, Hm|].
  eapply IH; eassumption.
Qed.

Lemma for_paragraphs_bounded fuel maxc ov :
  0 <= maxc ->
  forall ps chunks cur chunks' cur',
    Forall (fun c => str_length c <= maxc + 2) chunks ->
    str_length cur <= maxc + 2 ->
    for_paragraphs fuel maxc ov ps chunks cur = Some (chunks', cur') ->
    Forall (fun c => str_length c <= maxc + 2) chunks'
    /\ str_length cur' <= maxc + 2.
Proof.
  intros Hm. induction ps as [|p rest IH]; intros chunks cur chunks' cur' Hc Hcur.
  - simpl. intros [= <- <-]. auto.
  - cbn [for_paragraphs].
    destruct (Z.gtb_spec (str_length p) maxc) as [Hbig|Hsmall].
    + destruct (slide fuel maxc ov p 0) as [ws|] eqn:Ews; [|discriminate].
      apply IH; [|unfold str_length; simpl; lia].
      apply Forall_app. split.
      * destruct (truthy_str cur); [|exact Hc].
        apply Forall_app. split; [exact Hc|]. constructor; [exact Hcur|constructor].
      * eapply Forall_impl; [eapply slide_windows_bounded; eassumption|].
        simpl. intros c Hlen. lia.
    + destruct (Z.gtb_spec (str_length cur + str_length p) maxc) as [Hfull|Hfits].
      * apply IH; [|lia].
        apply Forall_app. split; [exact Hc|]. constructor; [exact Hcur|constructor].
      * apply IH; [exact Hc|].
        unfold str_length in *. rewrite !length_app.
        destruct (truthy_str cur); cbn [length]; unfold jschar; lia.
Qed.

(** Every chunk has at most [maxChunkSize + 2] characters: windows and
    the whole text at most [maxChunkSize], a paragraph buffer up to two
    more, because the test before a paragraph is appended does not count
    the two line feeds that join it. *)
Theorem chunk_length_bound fuel text maxChunkSize overlap chunks :
  0 <= maxChunkSize ->
  splitTextIntoChunks fuel text maxChunkSize overlap = Some chunks ->
  Forall (fun c => str_length c <= maxChunkSize + 2) chunks.
Proof.
  intros Hm. unfold splitTextIntoChunks.
  destruct (Z.leb_spec (str_length text) maxChunkSize) as [Hshort|Hlong].
  - intros [= <-]. constructor; [lia|constructor].
  - destruct (for_paragraphs fuel maxChunkSize overlap (split_blank text) [] [])
      as [[chunks' cur]|] eqn:E; [|discriminate].
    intros [= <-].
    assert (H0 : str_length [] <= maxChunkSize + 2)
      by (unfold str_length; simpl; lia).
    destruct (for_paragraphs_bounded fuel maxChunkSize overlap Hm _ _ _ _ _
                (List.Forall_nil _) H0 E)
      as [Hc Hcur].
    destruct (truthy_str cur); [|exact Hc].
    apply Forall_app. split; [exact Hc|]. constructor; [exact Hcur|constructor].
Qed.

(** Two paragraphs of five characters with [maxChunkSize = 10]: the one
    chunk returned has twelve. *)
Definition two_short_paragraphs : jsstring :=
  js "aaaaa" ++ [LF; LF] ++ js "bbbbb".

Lemma chunk_length_bound_witness :
  0 <= 10
  /\ splitTextIntoChunks 12 two_short_paragraphs 10 2
     = Some [two_short_paragraphs]
  /\ Forall (fun c => str_length c <= 10 + 2) [two_short_paragraphs]
  /\ str_length two_short_paragraphs = 12.
Proof.
  split; [lia|]. split; [reflexivity|].
  split; [|reflexivity].
  apply (chunk_length_bound 12 two_short_paragraphs 10 2); [lia|reflexivity].
Defined.

(** *** Empty chunks and empty results *)

Lemma window_nonempty p i maxc :
  0 <= i < str_length p -> 0 < maxc -> substring p i (i + maxc) <> [].
Proof.
  intros Hi Hm. rewrite ChunkerFacts.substring_window by lia.
  intros Hnil. apply (f_equal length) in Hnil.
  rewrite length_take, length_drop in Hnil. unfold str_length in Hi.
  simpl in Hnil. lia.
Qed.

Lemma slide_windows_nonempty maxc ov p : forall fuel i ws,
  ov < maxc -> 0 < maxc -> 0 <= i ->
  slide fuel maxc ov p i = Some ws ->
  Forall (fun c => c <> []) ws /\ (i < str_length p -> ws <> []).
Proof.
  induction fuel as [|f IH]; intros i ws Hov Hm Hi; simpl;
    (destruct (Z.ltb_spec i (str_length p)) as [Hlt|Hge];
     [|intros [= <-]; split; [constructor|lia]]);
    [discriminate|].
  destruct (slide f maxc ov p (i + (maxc - ov))) as [ws'|] eqn:E; simpl;
    [|discriminate].
  intros [= <-]. split; [|discriminate].
  constructor; [apply window_nonempty; lia|].
  eapply (IH (i + (maxc - ov))); [exact Hov|exact Hm|lia|exact E].
Qed.

Lemma for_paragraphs_nonempty fuel maxc ov :
  ov < maxc -> 0 < maxc ->
  forall ps chunks cur chunks' cur',
    Forall (fun c => c <> []) chunks ->
    for_paragraphs fuel maxc ov ps chunks cur = Some (chunks', cur') ->
    Forall (fun c => c <> []) chunks'.
Proof.
  intros Hov Hm. induction ps as [|p rest IH]; intros chunks cur chunks' cur' Hc.
  - simpl. intros [= <- <-]. exact Hc.
  - cbn [for_paragraphs].
    destruct (Z.gtb_spec (str_length p) maxc) as [Hbig|Hsmall].
    + destruct (slide fuel maxc ov p 0) as [ws|] eqn:Ews; [|discriminate].
      apply IH. apply Forall_app. split.
      * destruct cur as [|c cur0]; cbn [truthy_str]; [exact Hc|].
        apply Forall_app. split; [exact Hc|].
        constructor; [discriminate|constructor].
      * eapply slide_windows_nonempty; [exact Hov|exact Hm| |exact Ews]. lia.
    + destruct (Z.gtb_spec (str_length cur + str_length p) maxc) as [Hfull|Hfits].
      * apply IH. apply Forall_app. split; [exact Hc|].
        constructor; [|constructor]. intros ->.
        unfold str_length in *. simpl in Hfull. lia.
      * apply IH. exact Hc.
Qed.

(** With [overlap < maxChunkSize] and a text longer than [maxChunkSize],
    no chunk returned is empty. *)
Theorem long_text_no_empty_chunk fuel text maxChunkSize overlap chunks :
  overlap < maxChunkSize -> 0 < maxChunkSize ->
  maxChunkSize < str_length text ->
  splitTextIntoChunks fuel text maxChunkSize overlap = Some chunks ->
  Forall (fun c => c <> []) chunks.
Proof.
  intros Hov Hm Hlong. unfold splitTextIntoChunks.
  destruct (Z.leb_spec (str_length text) maxChunkSize); [lia|].
  destruct (for_paragraphs fuel maxChunkSize overlap (split_blank text) [] [])
    as [[chunks' cur]|] eqn:E; [|discriminate].
  intros [= <-].
  pose proof (for_paragraphs_nonempty fuel maxChunkSize overlap Hov Hm _ _ _ _ _
                (List.Forall_nil _) E) as Hc.
  destruct cur as [|c cur0]; cbn [truthy_str]; [exact Hc|].
  apply Forall_app. split; [exact Hc|]. constructor; [discriminate|constructor].
Qed.

Lemma long_text_no_empty_chunk_witness :
  4 < 10 /\ 0 < 10 /\ 10 < str_length ChunkerFacts.sample_text
  /\ exists chunks,
       splitTextIntoChunks 40 ChunkerFacts.sample_text 10 4 = Some chunks
       /\ Forall (fun c => c <> []) chunks.
Proof.
  split; [lia|]. split; [lia|]. split; [reflexivity|].
  eexists. split; [reflexivity|].
  apply (long_text_no_empty_chunk 40 ChunkerFacts.sample_text 10 4);
    [lia|lia|reflexivity|reflexivity].
Defined.

Lemma for_paragraphs_empty_iff fuel maxc ov :
  ov < maxc -> 0 < maxc ->
  forall ps chunks cur chunks' cur',
    for_paragraphs fuel maxc ov ps chunks cur = Some (chunks', cur') ->
    (chunks' = [] /\ cur' = []
     <-> chunks = [] /\ cur = [] /\ Forall (fun p => p = []) ps).
Proof.
  intros Hov Hm. induction ps as [|p rest IH]; intros chunks cur chunks' cur'.
  - simpl. intros [= <- <-]. split; [intros []; auto|intros (? & ? & _); auto].
  - cbn [for_paragraphs].
    destruct (Z.gtb_spec (str_length p) maxc) as [Hbig|Hsmall].
    + destruct (slide fuel maxc ov p 0) as [ws|] eqn:Ews; [|discriminate].
      intros Hrun. rewrite (IH _ _ _ _ Hrun).
      destruct (slide_windows_nonempty maxc ov p fuel 0 ws Hov Hm
                  ltac:(lia) Ews) as [_ Hws].
      split.
      * intros (Happ & _ & _). apply app_eq_nil in Happ.
        destruct Happ as [_ Hnil]. exfalso. apply Hws; [lia|exact Hnil].
      * intros (_ & _ & Hall). inversion Hall as [|? ? Hp _]; subst.
        unfold str_length in Hbig. simpl in Hbig. lia.
    + destruct (Z.gtb_spec (str_length cur + str_length p) maxc) as [Hfull|Hfits].
      * intros Hrun. rewrite (IH _ _ _ _ Hrun). split.
        -- intros (Happ & _). apply app_eq_nil in Happ.
           destruct Happ as [_ Hnil]. discriminate.
        -- intros (_ & -> & Hall). inversion Hall as [|? ? Hp _]; subst.
           unfold str_length in Hfull. simpl in Hfull. lia.
      * intros Hrun. rewrite (IH _ _ _ _ Hrun). split.
        -- intros (-> & Happ & Hall). apply app_eq_nil in Happ.
           destruct Happ as [-> Happ]. simpl in Happ. subst p.
           repeat split. constructor; [reflexivity|exact Hall].
        -- intros (-> & -> & Hall). inversion Hall as [|? ? Hp Hrest]; subst.
           simpl. auto.
Qed.

(** With [overlap < maxChunkSize], a text longer than [maxChunkSize] gives
    no chunk at all exactly when every paragraph of it is empty, that is,
    when the text is nothing but a blank-line separator. *)
Theorem long_text_no_chunks_iff_blank fuel text maxChunkSize overlap chunks :
  overlap < maxChunkSize -> 0 < maxChunkSize ->
  maxChunkSize < str_length text ->
  splitTextIntoChunks fuel text maxChunkSize overlap = Some chunks ->
  (chunks = [] <-> Forall (fun p => p = []) (split_blank text)).
Proof.
  intros Hov Hm Hlong. unfold splitTextIntoChunks.
  destruct (Z.leb_spec (str_length text) maxChunkSize); [lia|].
  destruct (for_paragraphs fuel maxChunkSize overlap (split_blank text) [] [])
    as [[chunks' cur]|] eqn:E; [|discriminate].
  intros [= <-].
  pose proof (for_paragraphs_empty_iff fuel maxChunkSize overlap Hov Hm
                _ _ _ _ _ E) as Hiff.
  destruct cur as [|c cur0]; cbn [truthy_str].
  - split.
    + intros ->. apply Hiff. auto.
    + intros Hall. apply Hiff. auto.
  - split.
    + intros Happ. apply app_eq_nil in Happ. destruct Happ as [_ Hnil].
      discriminate.
    + intros Hall. destruct (proj2 Hiff (conj eq_refl (conj eq_refl Hall)))
        as [_ Hcur]. discriminate.
Qed.

(** Four line feeds and [maxChunkSize = 3]: nothing is returned. *)
Lemma long_text_no_chunks_iff_blank_witness :
  1 < 3 /\ 0 < 3 /\ 3 < str_length [LF; LF; LF; LF]
  /\ splitTextIntoChunks 4 [LF; LF; LF; LF] 3 1 = Some []
  /\ Forall (fun p => p = []) (split_blank [LF; LF; LF; LF]).
Proof.
  split; [lia|]. split; [lia|]. split; [reflexivity|]. split; [reflexivity|].
  apply (long_text_no_chunks_iff_blank 4 [LF; LF; LF; LF] 3 1 []);
    [lia|lia|reflexivity|reflexivity|reflexivity].
Defined.

End ChunkerBounds.

(** ** Writes to the vector store ([insertDocument],
    [deleteDocumentsByNotebookId], [deleteDocumentsBySourceId]) *)
Module VectorStoreWrites.
Import JS VectorStore.

Section Writes.

Context (vector : Type) (cosine_distance : vector -> vector -> Q)
  (generateEmbeddings : jsstring -> option vector).

Local Abbreviation search :=
  (searchDocuments vector cosine_distance generateEmbeddings).
Local Abbreviation insert := (insertDocument vector generateEmbeddings).

(** [DELETE FROM documents WHERE metadata->>'notebook_id' = $1] *)
Definition deleteDocumentsByNotebookId (db : list (document vector))
  (notebookId : ident) : list (document vector) :=
  List.filter (fun d => negb (notebook_id (meta d) =? notebookId)) db.

(** [DELETE FROM documents WHERE metadata->>'source_id' = $1] *)
Definition deleteDocumentsBySourceId (db : list (document vector))
  (sourceId : ident) : list (document vector) :=
  List.filter (fun d => negb (source_id (meta d) =? sourceId)) db.

Lemma filter_filter_none {A} (p q : A -> bool) l :
  (forall x, p x = true -> q x = false) ->
  List.filter p (List.filter q l) = [].
Proof.
  intros Hpq. induction l as [|x l IH]; simpl; [reflexivity|].
  destruct (q x) eqn:Eq; [|exact IH]. simpl.
  destruct (p x) eqn:Ep; [|exact IH].
  rewrite (Hpq x Ep) in Eq. discriminate.
Qed.

Lemma filter_filter_same {A} (p q : A -> bool) l :
  (forall x, p x = true -> q x = true) ->
  List.filter p (List.filter q l) = List.filter p l.
Proof.
  intros Hpq. induction l as [|x l IH]; simpl; [reflexivity|].
  destruct (q x) eqn:Eq; simpl.
  - destruct (p x); [f_equal|]; exact IH.
  - destruct (p x) eqn:Ep; [|exact IH].
    rewrite (Hpq x Ep) in Eq. discriminate.
Qed.

(** After the documents of a notebook are deleted, a search in that
    notebook returns no row (or fails as before when the query cannot be
    embedded), and deleting again changes nothing. *)
Theorem delete_notebook_then_search db query notebookId limit :
  search (deleteDocumentsByNotebookId db notebookId) query notebookId limit
  = match generateEmbeddings query with
    | Some _ => Some []
    | None => None
    end
  /\ deleteDocumentsByNotebookId (deleteDocumentsByNotebookId db notebookId)
       notebookId
     = deleteDocumentsByNotebookId db notebookId.
Proof.
  split.
  - unfold searchDocuments, deleteDocumentsByNotebookId.
    destruct (generateEmbeddings query) as [q|]; [|reflexivity].
    rewrite filter_filter_none.
    + simpl. rewrite take_nil. reflexivity.
    + unfold in_notebook. intros d ->. reflexivity.
  - unfold deleteDocumentsByNotebookId.
    apply filter_filter_same. auto.
Qed.

(** Deleting the documents of one notebook leaves the search results of
    every other notebook as they were. *)
Theorem delete_notebook_keeps_others db query notebookId other limit :
  other <> notebookId ->
  search (deleteDocumentsByNotebookId db notebookId) query other limit
  = search db query other limit.
Proof.
  intros Hne. unfold searchDocuments, deleteDocumentsByNotebookId.
  destruct (generateEmbeddings query) as [q|]; [|reflexivity].
  rewrite filter_filter_same; [reflexivity|].
  unfold in_notebook. intros d Hd. apply Z.eqb_eq in Hd.
  apply negb_true_iff, Z.eqb_neq. congruence.
Qed.

(** After the documents of a source are deleted, the table holds exactly
    the documents of the other sources, and no search result cites the
    deleted source. *)
Theorem delete_source_removes_it db sourceId :
  (forall d, d ∈ deleteDocumentsBySourceId db sourceId
             <-> d ∈ db /\ source_id (meta d) <> sourceId)
  /\ forall query notebookId limit rows,
       search (deleteDocumentsBySourceId db sourceId) query notebookId limit
       = Some rows ->
       Forall (fun r => source_id (row_metadata r) <> sourceId) rows.
Proof.
  assert (Hmem : forall d, d ∈ deleteDocumentsBySourceId db sourceId
                           <-> d ∈ db /\ source_id (meta d) <> sourceId).
  { intros d. unfold deleteDocumentsBySourceId.
    rewrite list_elem_of_In, filter_In, negb_true_iff, Z.eqb_neq,
      <- list_elem_of_In. reflexivity. }
  split; [exact Hmem|].
  intros query notebookId limit rows. unfold searchDocuments.
  destruct (generateEmbeddings query) as [q|]; [|discriminate].
  intros [= <-]. apply Forall_forall. intros r Hr.
  apply subseteq_take, list_elem_of_fmap in Hr.
  destruct Hr as (d & -> & Hd). simpl.
  rewrite order_by_distance_perm in Hd.
  apply list_elem_of_In, filter_In in Hd. destruct Hd as [Hd _].
  apply list_elem_of_In, Hmem in Hd. tauto.
Qed.

(** A chunk that was inserted is found again: a search in its notebook
    with a limit above the number of documents the notebook had returns a
    row with the new id, the chunk's text and its metadata. *)
Theorem insert_then_search db next_id chunk m db' new_id query q limit :
  insertDocument vector generateEmbeddings db next_id chunk m
  = Some (db', new_id) ->
  generateEmbeddings query = Some q ->
  (length (List.filter (in_notebook vector (notebook_id m)) db) < limit)%nat ->
  new_id = next_id
  /\ exists rows r,
       search db' query (notebook_id m) limit = Some rows
       /\ r ∈ rows
       /\ row_id r = next_id /\ row_content r = chunk /\ row_metadata r = m.
Proof.
  unfold insertDocument, searchDocuments.
  destruct (generateEmbeddings chunk) as [e|]; [|discriminate].
  intros [= <- <-] -> Hlimit. split; [reflexivity|].
  set (doc := {| id := next_id; content := chunk; meta := m; embedding := e |}).
  eexists. exists (select_row vector cosine_distance q doc).
  split; [reflexivity|]. split; [|auto].
  rewrite List.filter_app. cbn [List.filter].
  replace (in_notebook vector (notebook_id m) doc) with true
    by (unfold in_notebook; simpl; symmetry; apply Z.eqb_refl).
  rewrite take_ge.
  - apply list_elem_of_fmap. exists doc. split; [reflexivity|].
    rewrite order_by_distance_perm. apply elem_of_app. right. left.
  - rewrite length_map, (Permutation_length (order_by_distance_perm _ _ _ _)),
      length_app. simpl. lia.
Qed.

(** Inserting a chunk leaves the search results of every other notebook as
    they were. *)
Theorem insert_keeps_others db next_id chunk m db' new_id query other limit :
  insertDocument vector generateEmbeddings db next_id chunk m
  = Some (db', new_id) ->
  other <> notebook_id m ->
  searchDocuments vector cosine_distance generateEmbeddings db' query other
    limit
  = searchDocuments vector cosine_distance generateEmbeddings db query other
      limit.
Proof.
  unfold insertDocument, searchDocuments.
  destruct (generateEmbeddings chunk) as [e|]; [|discriminate].
  intros [= <- <-] Hne.
  destruct (generateEmbeddings query) as [q|]; [|reflexivity].
  rewrite List.filter_app. cbn [List.filter].
  replace (in_notebook vector other _) with false.
  - rewrite app_nil_r. reflexivity.
  - unfold in_notebook. simpl. symmetry. apply Z.eqb_neq. congruence.
Qed.

End Writes.

Lemma delete_notebook_keeps_others_witness :
  2 <> 1
  /\ searchDocuments Z sample_distance sample_embed
       (deleteDocumentsByNotebookId Z sample_db 1) (js "alpha") 2 5
     = searchDocuments Z sample_distance sample_embed sample_db (js "alpha") 2 5.
Proof.
  split; [discriminate|].
  apply (delete_notebook_keeps_others Z sample_distance sample_embed sample_db
           (js "alpha") 1 2 5).
  discriminate.
Defined.

Definition new_chunk_meta : metadata := sample_meta 1 12 0.

Lemma insert_then_search_witness :
  insertDocument Z sample_embed sample_db 6 (js "gamma") new_chunk_meta
  = Some (sample_db ++ [{| id := 6; content := js "gamma";
                           meta := new_chunk_meta; embedding := 5 |}], 6)
  /\ sample_embed (js "beta") = Some 4
  /\ exists rows r,
       searchDocuments Z sample_distance sample_embed
         (sample_db ++ [{| id := 6; content := js "gamma";
                           meta := new_chunk_meta; embedding := 5 |}])
         (js "beta") 1 5 = Some rows
       /\ r ∈ rows /\ row_id r = 6 /\ row_content r = js "gamma"
       /\ row_metadata r = new_chunk_meta.
Proof.
  split; [reflexivity|]. split; [reflexivity|].
  eapply (insert_then_search Z sample_distance sample_embed sample_db 6
            (js "gamma") new_chunk_meta _ 6 (js "beta") 4 5);
    [reflexivity|reflexivity|vm_compute; lia].
Defined.

Lemma insert_keeps_others_witness :
  insertDocument Z sample_embed sample_db 6 (js "gamma") new_chunk_meta
  = Some (sample_db ++ [{| id := 6; content := js "gamma";
                           meta := new_chunk_meta; embedding := 5 |}], 6)
  /\ 2 <> notebook_id new_chunk_meta
  /\ searchDocuments Z sample_distance sample_embed
       (sample_db ++ [{| id := 6; content := js "gamma";
                         meta := new_chunk_meta; embedding := 5 |}])
       (js "beta") 2 5
     = searchDocuments Z sample_distance sample_embed sample_db (js "beta") 2 5.
Proof.
  split; [reflexivity|]. split; [discriminate|].
  apply (insert_keeps_others Z sample_distance sample_embed sample_db 6
           (js "gamma") new_chunk_meta _ 6 (js "beta") 2 5);
    [reflexivity|discriminate].
Defined.

End VectorStoreWrites.

(** ** Choosing the configuration and dispatching ([getActiveLLMConfig],
    [generateChatResponse], [generateEmbeddings], llmService.js) *)
Module Dispatch.
Import JS JSVal LLM.

(** The providers [generateChatResponse] has a case for. *)
Definition supported (p : jsstring) : Prop :=
  p = js "openai" \/ p = js "anthropic" \/ p = js "gemini" \/ p = js "ollama".

(** *** Embeddings *)

(** What [createEmbedding] or [ollama.embeddings] is called with. *)
Record embedding_request : Type := {
  er_provider : jsstring;
  er_model : jsstring;
  er_api_key : jsstring;
  er_base_url : jsstring;
  er_input : jsstring
}.

(** [a || b] on strings. *)
Definition str_or (a b : jsstring) : jsstring :=
  if truthy_str a then a else b.

Definition generateOpenAIEmbeddings_request (cfg : llm_config)
  (input : jsstring) : embedding_request :=
  {| er_provider := js "openai"; er_model := js "text-embedding-ada-002";
     er_api_key := api_key cfg; er_base_url := base_url cfg;
     er_input := input |}.

(** [env] is [process.env.OLLAMA_BASE_URL], empty when it is not set. *)
Definition generateOllamaEmbeddings_request (env : jsstring)
  (cfg : llm_config) (input : jsstring) : embedding_request :=
  {| er_provider := js "ollama"; er_model := model cfg;
     er_api_key := [];
     er_base_url :=
       str_or (base_url cfg) (str_or env (js "http://localhost:11434"));
     er_input := input |}.

(** [SELECT * FROM llm_configs WHERE provider = 'openai'
     AND is_active = true LIMIT 1] *)
Definition active_openai (llm_configs : list llm_config)
  : option llm_config :=
  head (List.filter
          (fun c => bool_decide (provider c = js "openai") && is_active c)
          llm_configs).

(** The request [generateEmbeddings] issues; [None] when it throws before
    issuing one. *)
Definition embedding_request_for (env : jsstring)
  (llm_configs : list llm_config) (input : jsstring)
  : option embedding_request :=
  cfg ← getActiveLLMConfig llm_configs;
  if bool_decide (provider cfg = js "openai") then
    Some (generateOpenAIEmbeddings_request cfg input)
  else if bool_decide (provider cfg = js "ollama") then
    Some (generateOllamaEmbeddings_request env cfg input)
  else
    fallback ← active_openai llm_configs;
    Some (generateOpenAIEmbeddings_request fallback input).

Section Embedding.

Variable vector : Type.
(** The embedding endpoint; [None] when the call throws. *)
Variable embed_transport : embedding_request -> option vector.

Definition generateEmbeddings (env : jsstring)
  (llm_configs : list llm_config) (input : jsstring) : option vector :=
  rq ← embedding_request_for env llm_configs input;
  embed_transport rq.

End Embedding.

(** *** Facts *)

Lemma head_filter_spec {A} (p : A -> bool) l :
  match head (List.filter p l) with
  | Some x => x ∈ l /\ p x = true
  | None => Forall (fun x => p x = false) l
  end.
Proof.
  induction l as [|x l IH]; simpl; [constructor|].
  destruct (p x) eqn:E; simpl.
  - split; [left|exact E].
  - destruct (head (List.filter p l)) as [y|].
    + destruct IH. split; [right; assumption|assumption].
    + constructor; assumption.
Qed.

Lemma chosen_is_active llm_configs c :
  getActiveLLMConfig llm_configs = Some c ->
  c ∈ llm_configs /\ is_active c = true.
Proof.
  unfold getActiveLLMConfig.
  pose proof (head_filter_spec is_default (List.filter is_active llm_configs))
    as Hd.
  pose proof (head_filter_spec is_active llm_configs) as Ha.
  destruct (List.filter is_default (List.filter is_active llm_configs))
    as [|d rest]; simpl in Hd.
  - intros Hc. rewrite Hc in Ha. exact Ha.
  - intros [= <-]. destruct Hd as [Hin _].
    apply list_elem_of_In, filter_In in Hin.
    split; [apply list_elem_of_In|]; tauto.
Qed.

(** The configuration chosen for a call is an active row, and a default one
    whenever some active row is the default; none is chosen exactly when no
    row is active. *)
Theorem active_config_choice llm_configs :
  match getActiveLLMConfig llm_configs with
  | Some c =>
      c ∈ llm_configs /\ is_active c = true
      /\ ((exists d, d ∈ llm_configs /\ is_active d = true
                     /\ is_default d = true) ->
          is_default c = true)
  | None => Forall (fun c => is_active c = false) llm_configs
  end.
Proof.
  unfold getActiveLLMConfig.
  pose proof (head_filter_spec is_default (List.filter is_active llm_configs))
    as Hd.
  pose proof (head_filter_spec is_active llm_configs) as Ha.
  destruct (List.filter is_default (List.filter is_active llm_configs))
    as [|c rest] eqn:E; simpl in Hd.
  - destruct (head (List.filter is_active llm_configs)) as [c|] eqn:Eh.
    + destruct Ha as [Hin Hact]. split; [exact Hin|]. split; [exact Hact|].
      intros (d & Hd1 & Hd2 & Hd3). exfalso.
      assert (Hdin : d ∈ List.filter is_active llm_configs).
      { apply list_elem_of_In, filter_In. split; [apply list_elem_of_In, Hd1|exact Hd2]. }
      eapply Forall_forall in Hd; [|exact Hdin]. congruence.
    + exact Ha.
  - destruct Hd as [Hin Hdef].
    apply list_elem_of_In, filter_In in Hin. destruct Hin as [Hin Hact].
    split; [apply list_elem_of_In, Hin|]. split; [exact Hact|]. auto.
Qed.

(** What is sent as sampling options: an entry of the stored configuration
    always goes out as stored; without a stored entry, the temperature and
    the token limit are the caller's value when it is truthy and the
    default otherwise; and no other option of the caller is sent. *)
Theorem sampling_options_entries max_key cfg (options : gmap string jsval) :
  max_key <> "temperature" ->
  (forall k v, config cfg !! k = Some v ->
     sampling_options max_key cfg options !! k = Some v)
  /\ (config cfg !! "temperature" = None ->
      sampling_options max_key cfg options !! "temperature"
      = Some (js_or (get options "temperature") default_temperature))
  /\ (config cfg !! max_key = None ->
      sampling_options max_key cfg options !! max_key
      = Some (js_or (get options "max_tokens") default_max_tokens))
  /\ (forall k, k <> "temperature" -> k <> max_key ->
      sampling_options max_key cfg options !! k = config cfg !! k).
Proof.
  intros Hk. unfold sampling_options. repeat split.
  - intros k v Hv. rewrite lookup_union, Hv. apply union_Some_l.
  - intros Hnone. rewrite lookup_union, Hnone, lookup_insert_eq. reflexivity.
  - intros Hnone. rewrite lookup_union, Hnone.
    rewrite lookup_insert_ne by congruence. rewrite lookup_insert_eq.
    reflexivity.
  - intros k Hk1 Hk2. rewrite lookup_union.
    rewrite !lookup_insert_ne by congruence. rewrite lookup_empty.
    destruct (config cfg !! k); reflexivity.
Qed.

Lemma sampling_options_entries_witness :
  "num_predict" <> "temperature"
  /\ sampling_options "num_predict" (plain_config (js "ollama"))
       (<["max_tokens" := JNum (50 # 1)]> (<["seed" := JNum (1 # 1)]> ∅))
       !! "num_predict" = Some (JNum (50 # 1))
  /\ sampling_options "num_predict" (plain_config (js "ollama"))
       (<["max_tokens" := JNum (50 # 1)]> (<["seed" := JNum (1 # 1)]> ∅))
       !! "seed" = None.
Proof.
  assert (H : "num_predict" <> "temperature") by discriminate.
  destruct (sampling_options_entries "num_predict" (plain_config (js "ollama"))
              (<["max_tokens" := JNum (50 # 1)]> (<["seed" := JNum (1 # 1)]> ∅))
              H) as (_ & _ & Hmax & Hother).
  split; [exact H|]. split.
  - rewrite Hmax by reflexivity. reflexivity.
  - rewrite Hother by discriminate. reflexivity.
Defined.

Lemma build_request_supported cfg messages options :
  match build_request cfg messages options with
  | Some rq => supported (provider cfg) /\ rq_provider rq = provider cfg
  | None => ~ supported (provider cfg)
  end.
Proof.
  unfold build_request, supported.
  repeat case_bool_decide; simpl; intuition congruence.
Qed.

(** [generateChatResponse] answers exactly when an active configuration
    is chosen, its provider is one of the four supported, and the provider
    answers the request built for it; the reply then names that
    configuration's provider and model. *)
Theorem chat_reply_origin (transport : provider_request -> option jsstring)
  llm_configs messages options reply :
  generateChatResponse transport llm_configs messages options = Some reply
  <-> exists cfg rq,
        getActiveLLMConfig llm_configs = Some cfg
        /\ supported (provider cfg)
        /\ build_request cfg messages options = Some rq
        /\ transport rq = Some (text reply)
        /\ reply_provider reply = provider cfg
        /\ reply_model reply = model cfg.
Proof.
  unfold generateChatResponse. split.
  - destruct (getActiveLLMConfig llm_configs) as [cfg|]; [|discriminate].
    cbn [mbind option_bind].
    pose proof (build_request_supported cfg messages options) as Hb.
    destruct (build_request cfg messages options) as [rq|] eqn:Eb;
      [|discriminate].
    cbn [mbind option_bind].
    destruct (transport rq) as [answer|] eqn:Et; [|discriminate].
    cbn [mbind option_bind]. intros [= <-]. cbn [text reply_provider reply_model].
    destruct Hb as (Hs & Hp). exists cfg, rq.
    repeat split; assumption || reflexivity.
  - intros (cfg & rq & -> & _ & Hb & Ht & Hp & Hm). cbn [mbind option_bind].
    pose proof (build_request_supported cfg messages options) as Hs.
    rewrite Hb in *. cbn [mbind option_bind]. rewrite Ht.
    cbn [mbind option_bind]. destruct Hs as (_ & Hp').
    destruct reply as [t p m]. cbn in *. congruence.
Qed.

(** An embedding is only ever asked of OpenAI or Ollama.  An OpenAI request
    uses the model [text-embedding-ada-002] and the key of an active OpenAI
    row; an Ollama request uses the model of the chosen configuration.  No
    request is issued exactly when no row is active, or the chosen provider
    is neither of the two and no OpenAI row is active. *)
Theorem embedding_request_origin env llm_configs input :
  match embedding_request_for env llm_configs input with
  | Some rq =>
      er_input rq = input
      /\ ((er_provider rq = js "openai"
           /\ er_model rq = js "text-embedding-ada-002"
           /\ exists c, c ∈ llm_configs /\ is_active c = true
                        /\ provider c = js "openai"
                        /\ er_api_key rq = api_key c
                        /\ er_base_url rq = base_url c)
          \/ (er_provider rq = js "ollama"
              /\ exists c, getActiveLLMConfig llm_configs = Some c
                           /\ provider c = js "ollama"
                           /\ er_model rq = model c))
  | None =>
      getActiveLLMConfig llm_configs = None
      \/ exists c, getActiveLLMConfig llm_configs = Some c
                   /\ provider c <> js "openai" /\ provider c <> js "ollama"
                   /\ Forall (fun d => provider d = js "openai" ->
                                       is_active d = false) llm_configs
  end.
Proof.
  unfold embedding_request_for.
  destruct (getActiveLLMConfig llm_configs) as [cfg|] eqn:Ecfg;
    cbn [mbind option_bind]; [|auto].
  destruct (chosen_is_active llm_configs cfg Ecfg) as (Hin & Hact).
  case_bool_decide as Ho.
  - split; [reflexivity|]. left. cbn. repeat split. exists cfg. auto.
  - case_bool_decide as Hl.
    + split; [reflexivity|]. right. cbn. split; [reflexivity|]. exists cfg. auto.
    + unfold active_openai.
      pose proof (head_filter_spec
        (fun c => bool_decide (provider c = js "openai") && is_active c)
        llm_configs) as Hf.
      destruct (head (List.filter _ llm_configs)) as [fb|];
        cbn [mbind option_bind].
      * destruct Hf as [Hfin Hfb]. apply andb_true_iff in Hfb.
        destruct Hfb as [Hfo Hfa]. apply bool_decide_eq_true in Hfo.
        split; [reflexivity|]. left. cbn. repeat split. exists fb. auto.
      * right. exists cfg. repeat split; [assumption..|].
        eapply Forall_impl; [exact Hf|]. intros d Hd Hdo. cbn in Hd.
        rewrite bool_decide_eq_true_2 in Hd by exact Hdo. exact Hd.
Qed.

End Dispatch.

(** ** The chat history ([GET /history], [DELETE /history] and the rows a
    turn writes, routes/chat.js) *)
Module ChatHistory.
Import JS JSVal VectorStore LLM Chat.

(** [ORDER BY id ASC] *)
Fixpoint insert_by_id_asc (r : chat_row) (l : list chat_row) : list chat_row :=
  match l with
  | [] => [r]
  | x :: l' =>
      if chat_id r <=? chat_id x then r :: x :: l'
      else x :: insert_by_id_asc r l'
  end.

Definition order_by_id_asc (l : list chat_row) : list chat_row :=
  foldr insert_by_id_asc [] l.

Inductive history_response : Type :=
  | HistoryError (status : Z) (error : jsstring)
  | HistoryRows (rows : list chat_row)
  | HistoryMessage (message : jsstring).

Section Routes.

Context (vector : Type) (cosine_distance : vector -> vector -> Q)
  (generateEmbeddings : jsstring -> option vector)
  (transport : provider_request -> option jsstring)
  (stringify : processed -> jsstring).

Local Abbreviation turn :=
  (send vector cosine_distance generateEmbeddings transport stringify).

(** [router.get('/history/:notebookId')] *)
Definition get_history (db : database vector) (userId notebookId : ident)
  : history_response :=
  if bool_decide (notebookCheck db notebookId userId = []) then
    HistoryError 404 (js "Cuaderno no encontrado")
  else
    HistoryRows
      (order_by_id_asc
         (List.filter (fun r => session_id r =? notebookId)
            (chat_histories db))).

(** [router.delete('/history/:notebookId')] *)
Definition delete_history (db : database vector) (userId notebookId : ident)
  : database vector * history_response :=
  if bool_decide (notebookCheck db notebookId userId = []) then
    (db, HistoryError 404 (js "Cuaderno no encontrado"))
  else
    ({| notebooks := notebooks db; sources := sources db;
        documents := documents db; llm_configs := llm_configs db;
        chat_histories :=
          List.filter (fun r => negb (session_id r =? notebookId))
            (chat_histories db);
        next_chat_id := next_chat_id db |},
     HistoryMessage (js "Historial de chat eliminado exitosamente")).

(** The table is in the order of its ids, all of them handed out by the
    sequence. *)
Definition history_wf (db : database vector) : Prop :=
  StronglySorted (fun a b => chat_id a < chat_id b) (chat_histories db)
  /\ ids_below (next_chat_id db) (chat_histories db).

(** *** The rows of a turn *)

(** Once the three guards are passed, the user's message is stored whatever
    happens next.  A turn that fails afterwards answers 500 and leaves that
    one new row, with no AI message; a turn that succeeds leaves the user's
    row and then the AI row, with the next two ids. *)
Theorem turn_rows (db : database vector) userId notebookId content :
  content <> [] ->
  notebookCheck db notebookId userId <> [] ->
  completed_sources db notebookId <> 0 ->
  let o := turn db userId notebookId content in
  let userRow := {| chat_id := next_chat_id db; session_id := notebookId;
                    message := human_message content |} in
  match out_response o with
  | Json u a =>
      u = userRow
      /\ chat_histories (out_db o) = chat_histories db ++ [userRow; a]
      /\ chat_id a = next_chat_id db + 1
      /\ session_id a = notebookId
      /\ get (message a) "type" = JStr (js "ai")
      /\ next_chat_id (out_db o) = next_chat_id db + 2
  | Error status _ =>
      status = 500
      /\ chat_histories (out_db o) = chat_histories db ++ [userRow]
      /\ next_chat_id (out_db o) = next_chat_id db + 1
  end.
Proof.
  intros Hc Hnb Hsrc. unfold send.
  destruct content as [|c content']; [congruence|]. cbn [truthy_str negb].
  case_bool_decide; [contradiction|].
  destruct (Z.eqb_spec (completed_sources db notebookId) 0); [contradiction|].
  cbn [insert_chat documents llm_configs chat_histories next_chat_id].
  destruct (searchDocuments _ _ _ _ _ _ _) as [docs|].
  - destruct (generateChatResponse _ _ _ _) as [reply|];
      cbn [out_response out_db chat_histories next_chat_id].
    + repeat split; try reflexivity.
      * rewrite <- app_assoc. reflexivity.
      * lia.
    + repeat split; reflexivity.
  - cbn [out_response out_db chat_histories next_chat_id].
    repeat split; reflexivity.
Qed.

(** A turn writes to [chat_histories] only: notebooks, sources, documents
    and provider configurations are as before, whatever the outcome. *)
Theorem turn_touches_only_history (db : database vector)
  userId notebookId content :
  let o := turn db userId notebookId content in
  notebooks (out_db o) = notebooks db
  /\ sources (out_db o) = sources db
  /\ documents (out_db o) = documents db
  /\ llm_configs (out_db o) = llm_configs db.
Proof.
  unfold send.
  destruct (negb (truthy_str content)); [auto|].
  case_bool_decide; [auto|].
  destruct (completed_sources db notebookId =? 0); [auto|].
  cbn [insert_chat documents llm_configs chat_histories next_chat_id].
  destruct (searchDocuments _ _ _ _ _ _ _) as [docs|]; [|cbn; auto].
  destruct (generateChatResponse _ _ _ _) as [reply|]; cbn; auto.
Qed.

(** *** Order of the table *)

Lemma insert_by_id_desc_last x l :
  Forall (fun y => chat_id x < chat_id y) l ->
  insert_by_id_desc x l = l ++ [x].
Proof.
  induction 1 as [|y l Hy _ IH]; simpl; [reflexivity|].
  destruct (Z.leb_spec (chat_id y) (chat_id x)); [lia|]. rewrite IH.
  reflexivity.
Qed.

Lemma order_by_id_desc_sorted l :
  StronglySorted (fun a b => chat_id a < chat_id b) l ->
  order_by_id_desc l = reverse l.
Proof.
  unfold order_by_id_desc.
  induction 1 as [|x l _ IH Hx]; simpl; [reflexivity|].
  rewrite IH, insert_by_id_desc_last, reverse_cons; [reflexivity|].
  apply Forall_reverse, Hx.
Qed.

Lemma insert_by_id_asc_head x l :
  Forall (fun y => chat_id x < chat_id y) l ->
  insert_by_id_asc x l = x :: l.
Proof.
  destruct 1 as [|y l Hy _]; simpl; [reflexivity|].
  destruct (Z.leb_spec (chat_id x) (chat_id y)); [reflexivity|lia].
Qed.

Lemma order_by_id_asc_sorted l :
  StronglySorted (fun a b => chat_id a < chat_id b) l ->
  order_by_id_asc l = l.
Proof.
  unfold order_by_id_asc.
  induction 1 as [|x l _ IH Hx]; simpl; [reflexivity|].
  rewrite IH. apply insert_by_id_asc_head, Hx.
Qed.

Lemma StronglySorted_filter {A} (R : A -> A -> Prop) (p : A -> bool) l :
  StronglySorted R l -> StronglySorted R (List.filter p l).
Proof.
  induction 1 as [|x l _ IH Hx]; simpl; [constructor|].
  destruct (p x); [|exact IH]. constructor; [exact IH|].
  apply Forall_forall. intros y Hy.
  apply list_elem_of_In, filter_In in Hy. destruct Hy as [Hy _].
  eapply Forall_forall in Hx; [exact Hx|apply list_elem_of_In, Hy].
Qed.

Lemma map_reverse {A B} (f : A -> B) l : map f (reverse l) = reverse (map f l).
Proof. change (f <$> reverse l = reverse (f <$> l)). apply fmap_reverse. Qed.

Lemma sorted_snoc rows next notebookId m :
  StronglySorted (fun a b => chat_id a < chat_id b) rows ->
  ids_below next rows ->
  StronglySorted (fun a b => chat_id a < chat_id b)
    (rows ++ [{| chat_id := next; session_id := notebookId; message := m |}])
  /\ ids_below (next + 1)
       (rows ++ [{| chat_id := next; session_id := notebookId; message := m |}]).
Proof.
  intros Hs Hb. split.
  - induction Hs as [|x l Hl IH Hx]; simpl; [repeat constructor|].
    unfold ids_below in Hb. apply Forall_cons in Hb. destruct Hb as [Hbx Hbl].
    constructor; [apply IH, Hbl|].
    apply Forall_app. split; [exact Hx|]. constructor; [exact Hbx|constructor].
  - unfold ids_below in *. apply Forall_app. split.
    + eapply Forall_impl; [exact Hb|]. simpl. intros; lia.
    + constructor; [simpl; lia|constructor].
Qed.

Lemma turn_keeps_wf (db : database vector) userId notebookId content :
  history_wf db -> history_wf (out_db (turn db userId notebookId content)).
Proof.
  intros [Hs Hb]. unfold send.
  destruct (negb (truthy_str content)); [split; assumption|].
  case_bool_decide; [split; assumption|].
  destruct (completed_sources db notebookId =? 0); [split; assumption|].
  cbn [insert_chat documents llm_configs chat_histories next_chat_id].
  destruct (sorted_snoc _ _ notebookId (human_message content) Hs Hb)
    as [Hs1 Hb1].
  destruct (searchDocuments _ _ _ _ _ _ _) as [docs|];
    [|split; assumption].
  destruct (generateChatResponse _ _ _ _) as [reply|];
    [|split; assumption].
  cbn [out_db]. unfold history_wf.
  cbn [chat_histories next_chat_id].
  apply sorted_snoc; assumption.
Qed.

(** The order of the table by id and the freshness of the next id are kept
    by every turn and by every deletion of a history. *)
Theorem history_wf_kept (db : database vector) userId notebookId content :
  history_wf db ->
  history_wf (out_db (turn db userId notebookId content))
  /\ history_wf (delete_history db userId notebookId).1.
Proof.
  intros Hwf. split; [apply turn_keeps_wf, Hwf|]. destruct Hwf as [Hs Hb].
  unfold delete_history. case_bool_decide; [split; assumption|].
  unfold history_wf. cbn [fst chat_histories next_chat_id]. split.
  - apply StronglySorted_filter, Hs.
  - unfold ids_below in *. apply Forall_forall. intros r Hr.
    apply list_elem_of_In, filter_In in Hr. destruct Hr as [Hr _].
    eapply Forall_forall in Hb; [exact Hb|apply list_elem_of_In, Hr].
Qed.

(** On a table in id order, the history loaded for a turn is the last ten
    messages of the notebook's conversation (all of them when there are
    fewer), oldest first. *)
Theorem history_window (db : database vector) notebookId :
  history_wf db ->
  let conversation :=
    List.filter (fun r => session_id r =? notebookId) (chat_histories db) in
  recent_history (chat_histories db) notebookId
  = map message (drop (length conversation - 10) conversation).
Proof.
  intros [Hs _] conversation. unfold recent_history. fold conversation.
  rewrite order_by_id_desc_sorted by apply StronglySorted_filter, Hs.
  rewrite take_reverse, map_reverse, reverse_involutive. reflexivity.
Qed.

(** After a successful turn on a table in id order, [GET /history] for the
    notebook returns the conversation as it was, followed by the user's row
    and the AI row of the turn. *)
Theorem history_after_turn (db : database vector)
  userId notebookId content userRow aiRow :
  history_wf db ->
  out_response (turn db userId notebookId content) = Json userRow aiRow ->
  get_history (out_db (turn db userId notebookId content)) userId notebookId
  = HistoryRows
      (List.filter (fun r => session_id r =? notebookId) (chat_histories db)
       ++ [userRow; aiRow]).
Proof.
  intros Hwf Hresp.
  destruct (turn_keeps_wf db userId notebookId content Hwf) as [Hs' _].
  revert Hresp Hs'. unfold send.
  destruct content as [|c content']; [discriminate|]. cbn [truthy_str negb].
  case_bool_decide as Hcheck; [discriminate|].
  destruct (Z.eqb_spec (completed_sources db notebookId) 0); [discriminate|].
  cbn [insert_chat documents llm_configs chat_histories next_chat_id].
  destruct (searchDocuments _ _ _ _ _ _ _) as [docs|]; [|discriminate].
  destruct (generateChatResponse _ _ _ _) as [reply|]; [|discriminate].
  cbn [out_response out_db]. intros [= <- <-] Hs'.
  unfold get_history, notebookCheck in *. cbn [notebooks chat_histories] in *.
  rewrite bool_decide_eq_false_2 by exact Hcheck.
  f_equal. rewrite order_by_id_asc_sorted by apply StronglySorted_filter, Hs'.
  rewrite <- app_assoc, !List.filter_app. cbn [List.filter session_id app].
  rewrite Z.eqb_refl. reflexivity.
Qed.


End Routes.

(** Without a retrieved chunk the answer is still cut into its non-blank
    paragraphs, but no segment carries a citation id and there is no
    citation. *)
Theorem no_chunks_no_citations text :
  processResponseWithCitations text []
  = {| segments :=
         map (fun p => {| seg_text := p; seg_citation_id := None |})
           (answer_paragraphs text);
       citations := [] |}.
Proof.
  unfold processResponseWithCitations.
  assert (H : forall ps index acc,
    forEach_paragraph [] index ps acc
    = {| segments := segments acc
           ++ map (fun p => {| seg_text := p; seg_citation_id := None |}) ps;
         citations := citations acc |}).
  { induction ps as [|p rest IH]; intros index acc; simpl.
    - rewrite app_nil_r. destruct acc; reflexivity.
    - rewrite IH. unfold visit_paragraph. cbn. rewrite <- app_assoc.
      reflexivity. }
  apply H.
Qed.

(** *** The sample notebook again *)

Definition completed_db : database Z := sample_database (js "completed").

Lemma completed_db_wf : history_wf Z completed_db.
Proof. split; repeat constructor. Defined.

Lemma completed_db_owned : notebookCheck completed_db 1 7 <> [].
Proof. vm_compute. discriminate. Defined.

Lemma turn_rows_witness :
  js "alpha" <> []
  /\ notebookCheck completed_db 1 7 <> []
  /\ completed_sources completed_db 1 <> 0
  /\ exists u a,
       out_response (sample_turn (js "completed")) = Json u a
       /\ chat_histories (out_db (sample_turn (js "completed")))
          = chat_histories completed_db ++ [u; a]
       /\ chat_id u = 3 /\ chat_id a = 4.
Proof.
  assert (H1 : js "alpha" <> []) by discriminate.
  assert (H3 : completed_sources completed_db 1 <> 0)
    by (vm_compute; discriminate).
  split; [exact H1|]. split; [exact completed_db_owned|]. split; [exact H3|].
  pose proof (turn_rows Z sample_distance sample_embed sample_transport
                sample_stringify completed_db 7 1 (js "alpha")
                H1 completed_db_owned H3) as H.
  cbv zeta in H. unfold sample_turn.
  change (sample_database (js "completed")) with completed_db.
  destruct (out_response _) as [st e|u a] eqn:E.
  - vm_compute in E. discriminate E.
  - destruct H as (Hu & Hrows & Ha & _). exists u, a.
    split; [reflexivity|]. split; [rewrite Hrows, Hu; reflexivity|].
    split; [rewrite Hu; reflexivity|exact Ha].
Defined.

Lemma history_wf_kept_witness :
  history_wf Z completed_db
  /\ history_wf Z (out_db (sample_turn (js "completed")))
  /\ history_wf Z (delete_history Z completed_db 7 1).1.
Proof.
  split; [exact completed_db_wf|].
  apply (history_wf_kept Z sample_distance sample_embed sample_transport
           sample_stringify completed_db 7 1 (js "alpha") completed_db_wf).
Defined.

Lemma history_window_witness :
  history_wf Z completed_db
  /\ recent_history (chat_histories completed_db) 1
     = [human_message (js "hello");
        ai_message (js "{}") (js "openai") (js "m")].
Proof.
  split; [exact completed_db_wf|].
  rewrite (history_window Z completed_db 1 completed_db_wf). reflexivity.
Defined.

Lemma history_after_turn_witness :
  history_wf Z completed_db
  /\ exists u a,
       out_response (sample_turn (js "completed")) = Json u a
       /\ get_history Z (out_db (sample_turn (js "completed"))) 7 1
          = HistoryRows (chat_histories completed_db ++ [u; a]).
Proof.
  split; [exact completed_db_wf|].
  eexists. eexists. split; [vm_compute; reflexivity|].
  unfold sample_turn.
  change (sample_database (js "completed")) with completed_db.
  etransitivity;
    [eapply (history_after_turn Z sample_distance sample_embed sample_transport
               sample_stringify completed_db 7 1 (js "alpha"));
     [exact completed_db_wf|vm_compute; reflexivity]
    |reflexivity].
Defined.


End ChatHistory.

(** ** What an ingestion run writes ([processDocument]) *)
Module IngestWrites.
Import JS JSVal VectorStore LLM Chunker Ingest.

Section Writes.

Context (vector : Type) (cosine_distance : vector -> vector -> Q)
  (generateEmbeddings : jsstring -> option vector)
  (transport : provider_request -> option jsstring)
  (extractTextFromPDF extractTextFromFile extractTextFromWebsite :
     jsstring -> option jsstring)
  (basename : jsstring -> jsstring).

Local Abbreviation run_of :=
  (processDocument vector generateEmbeddings transport extractTextFromPDF
     extractTextFromFile extractTextFromWebsite basename).
Local Abbreviation text_of :=
  (extracted_text vector extractTextFromPDF extractTextFromFile
     extractTextFromWebsite basename).
Local Abbreviation summary_of := (generateSummary vector transport).

(** The chunks up to the first one whose embedding throws, each with its
    vector. *)
Fixpoint embedded_prefix (chunks : list jsstring)
  : list (jsstring * vector) :=
  match chunks with
  | [] => []
  | c :: rest =>
      match generateEmbeddings c with
      | Some e => (c, e) :: embedded_prefix rest
      | None => []
      end
  end.

(** The row written for the [i]-th chunk of source [s]. *)
Definition chunk_document (s : source) (notebookTitle : jsstring)
  (first_id : ident) (i : nat) (ce : jsstring * vector) : document vector :=
  {| id := first_id + Z.of_nat i; content := ce.1;
     meta := {| notebook_id := src_notebook_id s; source_id := src_id s;
                source_title := Some (src_title s);
                source_type := Some (src_type s);
                chunk_index := Z.of_nat i;
                notebook_title := notebookTitle |};
     embedding := ce.2 |}.

Lemma insert_chunks_documents s title : forall chunks (st : state vector) k,
  documents (insert_chunks vector generateEmbeddings st s title
               (Z.of_nat k) chunks).1
  = documents st
    ++ imap (fun i => chunk_document s title
                        (next_document_id vector st - Z.of_nat k) (k + i))
         (embedded_prefix chunks).
Proof.
  induction chunks as [|c rest IH]; intros st k; simpl.
  - rewrite app_nil_r. reflexivity.
  - unfold insertDocument.
    destruct (generateEmbeddings c) as [e|]; simpl;
      [|rewrite app_nil_r; reflexivity].
    replace (Z.of_nat k + 1) with (Z.of_nat (S k)) by lia.
    rewrite IH. cbn [documents next_document_id]. rewrite <- app_assoc.
    f_equal. cbn [app]. f_equal.
    + unfold chunk_document. cbn [fst snd]. rewrite Nat.add_0_r.
      f_equal. lia.
    + apply imap_ext. intros i ce _. unfold chunk_document. cbn.
      f_equal; [lia|f_equal; lia].
Qed.

Lemma run_documents_found (st : state vector) sourceId s extracted :
  find_source vector st sourceId = Some s ->
  text_of st sourceId = Some extracted ->
  documents (final (run_of st sourceId))
  = documents st
    ++ imap (chunk_document s
               (notebook_title_of vector st (src_notebook_id s))
               (next_document_id vector st))
         (embedded_prefix (chunks_of extracted)).
Proof.
  unfold processDocument, try_block, extracted_text. intros ->.
  cbn [mbind option_bind]. intros ->.
  match goal with
  | |- context [insert_chunks ?v ?g ?st1 ?s ?t 0 ?cs] =>
      pose proof (insert_chunks_documents s t cs st1 O) as Hdocs;
      destruct (insert_chunks v g st1 s t 0 cs) as [st2 finished] eqn:E
  end.
  change (Z.of_nat 0) with 0 in Hdocs. rewrite E in Hdocs.
  cbn [fst documents next_document_id update_extracted] in Hdocs.
  rewrite Z.sub_0_r in Hdocs.
  destruct finished; cbn [final documents update_status]; exact Hdocs.
Qed.

(** The documents a run adds are those of the chunks up to the first one
    that cannot be embedded, in the order of the chunks, with consecutive
    ids and chunk indices 0, 1, 2, ..., each tagged with the notebook and
    the source; a run whose source is missing or whose extraction fails
    adds none. *)
Theorem run_documents (st : state vector) sourceId :
  documents (final (run_of st sourceId))
  = documents st
    ++ match find_source vector st sourceId, text_of st sourceId with
       | Some s, Some extracted =>
           imap (chunk_document s
                   (notebook_title_of vector st (src_notebook_id s))
                   (next_document_id vector st))
             (embedded_prefix (chunks_of extracted))
       | _, _ => []
       end.
Proof.
  unfold processDocument, try_block, extracted_text.
  destruct (find_source vector st sourceId) as [s|]; cbn [mbind option_bind];
    [|cbn; rewrite app_nil_r; reflexivity].
  destruct (extract _ _ _ _ s) as [extracted|];
    [|cbn; rewrite app_nil_r; reflexivity].
  match goal with
  | |- context [insert_chunks ?v ?g ?st1 ?s ?t 0 ?cs] =>
      pose proof (insert_chunks_documents s t cs st1 O) as Hdocs;
      destruct (insert_chunks v g st1 s t 0 cs) as [st2 finished] eqn:E
  end.
  change (Z.of_nat 0) with 0 in Hdocs. rewrite E in Hdocs.
  cbn [fst documents next_document_id update_extracted] in Hdocs.
  rewrite Z.sub_0_r in Hdocs.
  destruct finished; cbn [final documents update_status]; exact Hdocs.
Qed.

(** A run changes one row of [sources] and no other: the row of the source
    keeps its id, notebook, title, type, path and url; when the text was
    extracted it holds the text and the summary (also when a later chunk
    insertion fails), otherwise its content and summary are as before. *)
Theorem run_sources (st : state vector) sourceId :
  Forall2
    (fun s s' =>
       if src_id s =? sourceId then
         src_id s' = src_id s /\ src_notebook_id s' = src_notebook_id s
         /\ src_title s' = src_title s /\ src_type s' = src_type s
         /\ src_file_path s' = src_file_path s /\ src_url s' = src_url s
         /\ match text_of st sourceId with
            | Some extracted =>
                src_content s' = extracted
                /\ src_summary s' = summary_of st extracted
            | None =>
                src_content s' = src_content s
                /\ src_summary s' = src_summary s
                /\ processing_status s' = failed
            end
       else s' = s)
    (sources st) (sources (final (run_of st sourceId))).
Proof.
  assert (Hmap : forall (f : source -> source) (P : source -> source -> Prop)
                   (l : list source),
    (forall s, src_id s = sourceId -> P s (f s)) ->
    Forall2 (fun s s' => if src_id s =? sourceId then P s s' else s' = s)
      l (map (fun s => if src_id s =? sourceId then f s else s) l)).
  { intros f P l Hf. induction l as [|s l IH]; simpl; constructor; [|exact IH].
    destruct (Z.eqb_spec (src_id s) sourceId); [apply Hf; assumption|reflexivity]. }
  unfold processDocument, try_block, extracted_text.
  destruct (find_source vector st sourceId) as [src|]; cbn [mbind option_bind].
  2:{ cbn [final sources update_status]. apply Hmap. intros s _. cbn. auto 10. }
  destruct (extract _ _ _ _ src) as [extracted|].
  2:{ cbn [final sources update_status]. apply Hmap. intros s _. cbn. auto 10. }
  match goal with
  | |- context [insert_chunks ?v ?g ?st1 ?s ?t ?i ?cs] =>
      destruct (Ingest.insert_chunks_spec v g s t cs st1 i) as [_ Hsrc];
      destruct (insert_chunks v g st1 s t i cs) as [st2 finished]
  end.
  cbn [fst] in Hsrc.
  destruct finished; cbn [final sources update_status]; rewrite Hsrc;
    cbn [sources update_extracted].
  - apply Hmap. intros s _. cbn. auto 10.
  - induction (sources st) as [|s l IH]; simpl; constructor; [|exact IH].
    destruct (Z.eqb_spec (src_id s) sourceId) as [Hs|Hs]; cbn [src_id].
    + rewrite Hs, Z.eqb_refl. cbn. auto 10.
    + destruct (Z.eqb_spec (src_id s) sourceId); [contradiction|reflexivity].
Qed.

Lemma embedded_prefix_all chunks :
  forallb (embeds vector generateEmbeddings) chunks = true ->
  map fst (embedded_prefix chunks) = chunks.
Proof.
  induction chunks as [|c rest IH]; simpl; [reflexivity|].
  unfold embeds at 1. destruct (generateEmbeddings c) as [e|]; [|discriminate].
  simpl. intros H. rewrite IH by exact H. reflexivity.
Qed.

(** What was ingested can be retrieved: after a run in which the text was
    extracted and every chunk embedded, a search in the source's notebook
    with a limit that covers the notebook's documents returns, for each
    chunk of the text, a row with that chunk as content and the source's
    id in its metadata. *)
Theorem ingested_chunks_are_found (st : state vector) sourceId s extracted
  chunk query q limit :
  find_source vector st sourceId = Some s ->
  text_of st sourceId = Some extracted ->
  forallb (embeds vector generateEmbeddings) (chunks_of extracted) = true ->
  chunk ∈ chunks_of extracted ->
  generateEmbeddings query = Some q ->
  (length (List.filter (in_notebook vector (src_notebook_id s))
             (documents (final (run_of st sourceId)))) <= limit)%nat ->
  exists rows r,
    searchDocuments vector cosine_distance generateEmbeddings
      (documents (final (run_of st sourceId))) query (src_notebook_id s) limit
    = Some rows
    /\ r ∈ rows
    /\ row_content r = chunk
    /\ source_id (row_metadata r) = src_id s.
Proof.
  intros Hs Ht Hall Hin Hq Hlimit.
  pose proof (run_documents_found st sourceId s extracted Hs Ht) as Hdocs.
  rewrite <- (embedded_prefix_all _ Hall) in Hin.
  apply list_elem_of_fmap in Hin. destruct Hin as ([c e] & Hc & Hce).
  simpl in Hc. subst c.
  apply list_elem_of_lookup in Hce. destruct Hce as [i Hi].
  set (doc := chunk_document s (notebook_title_of vector st (src_notebook_id s))
                (next_document_id vector st) i (chunk, e)).
  assert (Hdoc : doc ∈ documents (final (run_of st sourceId))).
  { rewrite Hdocs. apply elem_of_app. right.
    apply list_elem_of_lookup. exists i.
    rewrite list_lookup_imap, Hi. reflexivity. }
  unfold searchDocuments in *. rewrite Hq.
  eexists. exists (select_row vector cosine_distance q doc).
  split; [reflexivity|]. split; [|split; reflexivity].
  rewrite take_ge.
  - apply list_elem_of_fmap. exists doc. split; [reflexivity|].
    rewrite order_by_distance_perm.
    apply list_elem_of_In, filter_In. split; [apply list_elem_of_In, Hdoc|].
    unfold in_notebook. simpl. apply Z.eqb_refl.
  - rewrite length_map, (Permutation_length (order_by_distance_perm _ _ _ _)).
    exact Hlimit.
Qed.

End Writes.

(** *** The greeting source, ingested and searched *)

Definition hello_source : source :=
  {| src_id := 1; src_notebook_id := 1; src_title := js "greeting";
     src_type := js "text"; src_content := js "Hello world.";
     src_file_path := []; src_url := []; src_summary := [];
     processing_status := js "processing" |}.

Lemma ingested_chunks_are_found_witness :
  find_source Z hello_state 1 = Some hello_source
  /\ exists rows r,
    searchDocuments Z sample_distance sample_embed
      (documents (final (hello_run sample_embed))) (js "Hello") 1 5
    = Some rows
    /\ r ∈ rows
    /\ row_content r = js "Hello world."
    /\ source_id (row_metadata r) = 1.
Proof.
  split; [reflexivity|].
  apply (ingested_chunks_are_found Z sample_distance sample_embed
           no_provider no_reader no_reader no_reader (fun p => p)
           hello_state 1 hello_source (js "Hello world.") (js "Hello world.")
           (js "Hello") 5 5).
  - reflexivity.
  - reflexivity.
  - reflexivity.
  - vm_compute. left.
  - reflexivity.
  - vm_compute. lia.
Defined.

End IngestWrites.

(** ** The provider configurations ([/llm-configs], routes/admin.js) *)
Module AdminConfigs.
Import JS JSVal LLM.

(** A row of [llm_configs] with its id and name. *)
Record config_row : Type := {
  cfg_id : Z;
  cfg_name : jsstring;
  cfg : llm_config
}.

(** The body of a create or update request; [is_active] and [is_default]
    are taken as booleans, [config] may be missing. *)
Record config_body : Type := {
  b_name : jsstring;
  b_provider : jsstring;
  b_model : jsstring;
  b_api_key : jsstring;
  b_base_url : jsstring;
  b_is_active : bool;
  b_is_default : bool;
  b_config : option (gmap string jsval)
}.

Record table : Type := {
  rows : list config_row;
  next_id : Z
}.

Inductive admin_response : Type :=
  | AdminError (status : Z) (error : jsstring)
  | AdminRow (status : Z) (row : config_row)
  | AdminNoContent.

Definition ConfigNotFound : admin_response :=
  AdminError 404 (js "Configuraci" ++ [243%N] ++ js "n no encontrada").

Definition DefaultNotDeletable : admin_response :=
  AdminError 400
    (js "No se puede eliminar la configuraci" ++ [243%N]
     ++ js "n predeterminada").

(** The columns written from a body; [config || {}]. *)
Definition of_body (b : config_body) : llm_config :=
  {| provider := b_provider b; model := b_model b; api_key := b_api_key b;
     base_url := b_base_url b; is_active := b_is_active b;
     is_default := b_is_default b; config := default ∅ (b_config b) |}.

(** [SET is_default = false] on one row. *)
Definition unset_default (r : config_row) : config_row :=
  {| cfg_id := cfg_id r; cfg_name := cfg_name r;
     cfg := {| provider := provider (cfg r); model := model (cfg r);
               api_key := api_key (cfg r); base_url := base_url (cfg r);
               is_active := is_active (cfg r); is_default := false;
               config := config (cfg r) |} |}.

(** [router.post('/llm-configs')] *)
Definition create (t : table) (b : config_body) : table * admin_response :=
  let rows1 := if b_is_default b then map unset_default (rows t) else rows t in
  let row := {| cfg_id := next_id t; cfg_name := b_name b; cfg := of_body b |} in
  ({| rows := rows1 ++ [row]; next_id := next_id t + 1 |}, AdminRow 201 row).

(** [router.put('/llm-configs/:id')]: the other rows lose their default
    flag before the row is looked for. *)
Definition update (t : table) (id : Z) (b : config_body)
  : table * admin_response :=
  let rows1 :=
    if b_is_default b
    then map (fun r => if cfg_id r =? id then r else unset_default r) (rows t)
    else rows t in
  let updated r := {| cfg_id := cfg_id r; cfg_name := b_name b;
                      cfg := of_body b |} in
  match List.filter (fun r => cfg_id r =? id) rows1 with
  | [] => ({| rows := rows1; next_id := next_id t |}, ConfigNotFound)
  | r :: _ =>
      ({| rows := map (fun r => if cfg_id r =? id then updated r else r) rows1;
          next_id := next_id t |},
       AdminRow 200 (updated r))
  end.

(** [router.delete('/llm-configs/:id')] *)
Definition delete (t : table) (id : Z) : table * admin_response :=
  match List.filter (fun r => cfg_id r =? id) (rows t) with
  | [] => (t, ConfigNotFound)
  | r :: _ =>
      if is_default (cfg r) then (t, DefaultNotDeletable)
      else ({| rows := List.filter (fun r => negb (cfg_id r =? id)) (rows t);
               next_id := next_id t |},
            AdminNoContent)
  end.

(** The configurations as [getActiveLLMConfig] reads them. *)
Definition configs (t : table) : list llm_config := map cfg (rows t).

Definition defaults (l : list config_row) : list config_row :=
  List.filter (fun r => is_default (cfg r)) l.

(** Ids are unique and at most one row is the default. *)
Definition table_wf (t : table) : Prop :=
  NoDup (map cfg_id (rows t))
  /\ Forall (fun r => cfg_id r < next_id t) (rows t)
  /\ (length (defaults (rows t)) <= 1)%nat.


(** *** Facts *)

Lemma filter_map_length {A} (p q : A -> bool) (g : A -> A) l :
  (forall x, p (g x) = true -> q x = true) ->
  (length (List.filter p (map g l)) <= length (List.filter q l))%nat.
Proof.
  intros H. induction l as [|x l IH]; simpl; [lia|].
  destruct (p (g x)) eqn:E.
  - rewrite (H x E). simpl. lia.
  - destruct (q x); simpl; lia.
Qed.

Lemma filter_length_le {A} (p : A -> bool) l :
  (length (List.filter p l) <= length l)%nat.
Proof. induction l as [|x l IH]; simpl; [lia|]. destruct (p x); simpl; lia. Qed.

Lemma filter_filter_length {A} (p q : A -> bool) l :
  (length (List.filter p (List.filter q l)) <= length (List.filter p l))%nat.
Proof.
  induction l as [|x l IH]; simpl; [lia|].
  destruct (q x); simpl; destruct (p x); simpl; lia.
Qed.

Lemma unique_id_rows l id :
  NoDup (map cfg_id l) ->
  (length (List.filter (fun r => (cfg_id r =? id)%Z) l) <= 1)%nat.
Proof.
  induction l as [|x l IH]; simpl; [lia|].
  intros Hnd. apply NoDup_cons in Hnd. destruct Hnd as [Hx Hl].
  specialize (IH Hl).
  destruct (Z.eqb_spec (cfg_id x) id) as [Hid|]; [|exact IH]. simpl.
  assert (Hnone : List.filter (fun r => cfg_id r =? id) l = []).
  { destruct (List.filter (fun r => cfg_id r =? id) l) as [|y rest] eqn:E;
      [reflexivity|].
    exfalso. apply Hx.
    assert (Hy : In y (List.filter (fun r => cfg_id r =? id) l))
      by (rewrite E; left; reflexivity).
    apply filter_In in Hy. destruct Hy as [Hy Hyid].
    apply Z.eqb_eq in Hyid. rewrite Hid, <- Hyid.
    apply list_elem_of_fmap. exists y. split; [reflexivity|].
    apply list_elem_of_In, Hy. }
  rewrite Hnone. simpl. lia.
Qed.

Lemma map_id_kept (g : config_row -> config_row) l :
  (forall r, cfg_id (g r) = cfg_id r) ->
  map cfg_id (map g l) = map cfg_id l.
Proof.
  intros Hg. induction l as [|x l IH]; simpl; [reflexivity|].
  rewrite IH, Hg. reflexivity.
Qed.

Lemma map_id_unset l : map cfg_id (map unset_default l) = map cfg_id l.
Proof. induction l as [|x l IH]; simpl; [|rewrite IH]; reflexivity. Qed.

Lemma defaults_unset l : defaults (map unset_default l) = [].
Proof. induction l as [|x l IH]; simpl; [reflexivity|exact IH]. Qed.

Lemma NoDup_map_filter (p : config_row -> bool) l :
  NoDup (map cfg_id l) -> NoDup (map cfg_id (List.filter p l)).
Proof.
  induction l as [|x l IH]; simpl; [auto|].
  intros Hnd. apply NoDup_cons in Hnd. destruct Hnd as [Hx Hl].
  destruct (p x); simpl; [|apply IH, Hl].
  apply NoDup_cons. split; [|apply IH, Hl].
  intros Hin. apply Hx. apply list_elem_of_fmap in Hin.
  destruct Hin as (y & Hy & Hyin). apply list_elem_of_fmap. exists y.
  split; [exact Hy|].
  apply list_elem_of_In, filter_In in Hyin.
  apply list_elem_of_In. tauto.
Qed.

(** Unique ids, ids below the next one and "at most one default row" are
    kept by creating, updating and deleting a configuration. *)
Theorem table_wf_kept t b id :
  table_wf t ->
  table_wf (create t b).1 /\ table_wf (update t id b).1
  /\ table_wf (delete t id).1.
Proof.
  intros (Hnd & Hlt & Hdef). split; [|split].
  - unfold create, table_wf. cbn [fst rows next_id].
    assert (Hids : map cfg_id (if b_is_default b
                               then map unset_default (rows t) else rows t)
                   = map cfg_id (rows t)).
    { destruct (b_is_default b); [apply map_id_unset|reflexivity]. }
    split; [|split].
    + rewrite map_app, Hids. cbn [map cfg_id]. apply NoDup_app.
      split; [exact Hnd|]. split; [|apply NoDup_singleton].
      intros x Hx Hx'. apply list_elem_of_singleton in Hx'. subst x.
      apply list_elem_of_fmap in Hx. destruct Hx as (r & Hr & Hrin).
      eapply Forall_forall in Hlt; [|exact Hrin]. lia.
    + apply Forall_app. split.
      * apply Forall_forall. intros r Hr.
        assert (Hin : cfg_id r ∈ map cfg_id (rows t)).
        { rewrite <- Hids. apply list_elem_of_fmap. eauto. }
        apply list_elem_of_fmap in Hin. destruct Hin as (r' & -> & Hr').
        eapply Forall_forall in Hlt; [|exact Hr']. lia.
      * constructor; [simpl; lia|constructor].
    + unfold defaults in *. rewrite List.filter_app, length_app.
      destruct (b_is_default b) eqn:Eb.
      * fold (defaults (map unset_default (rows t))). rewrite defaults_unset.
        simpl. rewrite Eb. simpl. lia.
      * simpl. rewrite Eb. simpl. lia.
  - unfold update.
    set (rows1 := if b_is_default b
                  then map (fun r => if cfg_id r =? id then r
                                     else unset_default r) (rows t)
                  else rows t).
    assert (Hids1 : map cfg_id rows1 = map cfg_id (rows t)).
    { subst rows1. destruct (b_is_default b); [|reflexivity].
      apply map_id_kept. intros r. destruct (cfg_id r =? id); reflexivity. }
    assert (Hlt1 : forall l, map cfg_id l = map cfg_id (rows t) ->
                             Forall (fun r => cfg_id r < next_id t) l).
    { intros l Hl. apply Forall_forall. intros r Hr.
      assert (Hin : cfg_id r ∈ map cfg_id (rows t)).
      { rewrite <- Hl. apply list_elem_of_fmap. eauto. }
      apply list_elem_of_fmap in Hin. destruct Hin as (r' & -> & Hr').
      eapply Forall_forall in Hlt; exact Hlt || exact Hr'. }
    assert (Hdef1 : (length (defaults rows1)
                     <= if b_is_default b
                        then length (List.filter (fun r => (cfg_id r =? id)%Z)
                                       (rows t))
                        else length (defaults (rows t)))%nat).
    { subst rows1. destruct (b_is_default b); [|lia].
      apply filter_map_length. intros x.
      destruct (cfg_id x =? id); [reflexivity|discriminate]. }
    destruct (List.filter (fun r => cfg_id r =? id) rows1) as [|r0 rest] eqn:E;
      unfold table_wf; cbn [fst rows next_id].
    + split; [rewrite Hids1; exact Hnd|]. split; [apply Hlt1, Hids1|].
      pose proof (unique_id_rows (rows t) id Hnd).
      destruct (b_is_default b); lia.
    + assert (Hids2 :
        map cfg_id
          (map (fun r => if cfg_id r =? id
                         then {| cfg_id := cfg_id r; cfg_name := b_name b;
                                 cfg := of_body b |}
                         else r) rows1)
        = map cfg_id (rows t)).
      { rewrite <- Hids1. apply map_id_kept. intros r.
        destruct (cfg_id r =? id); reflexivity. }
      split; [rewrite Hids2; exact Hnd|]. split; [apply Hlt1, Hids2|].
      pose proof (unique_id_rows (rows t) id Hnd) as Hone.
      destruct (b_is_default b) eqn:Eb.
      * etransitivity; [|exact Hone]. unfold defaults. subst rows1.
        rewrite map_map. apply filter_map_length. intros x.
        destruct (cfg_id x =? id) eqn:Ex; cbn [cfg_id unset_default];
          rewrite Ex; [reflexivity|discriminate].
      * etransitivity; [|exact Hdef]. unfold defaults. subst rows1.
        apply filter_map_length. intros x.
        destruct (cfg_id x =? id); cbn; [rewrite Eb; discriminate|auto].
  - unfold delete.
    destruct (List.filter (fun r => cfg_id r =? id) (rows t)) as [|r0 rest];
      [repeat split; assumption|].
    destruct (is_default (cfg r0)); [repeat split; assumption|].
    unfold table_wf. cbn [fst rows next_id]. split; [|split].
    + apply NoDup_map_filter, Hnd.
    + apply Forall_forall. intros r Hr.
      apply list_elem_of_In, filter_In in Hr. destruct Hr as [Hr _].
      eapply Forall_forall in Hlt; [exact Hlt|apply list_elem_of_In, Hr].
    + etransitivity; [|exact Hdef]. unfold defaults.
      apply filter_filter_length.
Qed.


Lemma no_default_after_unset l :
  List.filter is_default (List.filter is_active (map cfg (map unset_default l)))
  = [].
Proof.
  induction l as [|x l IH]; simpl; [reflexivity|].
  destruct (is_active (cfg x)); simpl; exact IH.
Qed.

(** A configuration created as active and default is the one chosen for
    the next call, whatever the table held. *)
Theorem created_default_is_chosen t b :
  b_is_active b = true -> b_is_default b = true ->
  getActiveLLMConfig (configs (create t b).1) = Some (of_body b).
Proof.
  intros Ha Hd. unfold create, configs, getActiveLLMConfig.
  cbn [fst rows]. rewrite Hd, map_app, !List.filter_app.
  rewrite no_default_after_unset. cbn. rewrite ?Ha, ?Hd. cbn.
  rewrite ?Ha, ?Hd. reflexivity.
Qed.

Lemma choice_after_delete l id :
  Forall (fun r => cfg_id r = id -> is_default (cfg r) = false) l ->
  List.filter is_default
    (List.filter is_active
       (map cfg (List.filter (fun r => negb (cfg_id r =? id)) l)))
  = List.filter is_default (List.filter is_active (map cfg l)).
Proof.
  induction 1 as [|x l Hx _ IH]; [reflexivity|].
  cbn [List.filter map].
  destruct (Z.eqb_spec (cfg_id x) id) as [Hid|Hid]; cbn [negb List.filter map].
  - rewrite IH. destruct (is_active (cfg x)); cbn [List.filter]; [|reflexivity].
    rewrite (Hx Hid). reflexivity.
  - destruct (is_active (cfg x)); cbn [List.filter]; [|exact IH].
    rewrite IH. reflexivity.
Qed.

(** While an active default configuration exists, deleting a
    configuration (found or not, refused or not) never changes which one
    is chosen for a call. *)
Theorem delete_keeps_choice t id :
  table_wf t ->
  (exists c, c ∈ configs t /\ is_active c = true /\ is_default c = true) ->
  getActiveLLMConfig (configs (delete t id).1) = getActiveLLMConfig (configs t).
Proof.
  intros (Hnd & _ & _) (c & Hc & Hact & Hdef). unfold delete.
  pose proof (unique_id_rows (rows t) id Hnd) as Hone.
  destruct (List.filter (fun r => cfg_id r =? id) (rows t)) as [|r0 rest] eqn:E;
    [reflexivity|].
  destruct (is_default (cfg r0)) eqn:Er0; [reflexivity|].
  cbn [fst]. unfold configs, getActiveLLMConfig. cbn [rows].
  assert (Hall : Forall (fun r => cfg_id r = id -> is_default (cfg r) = false)
                   (rows t)).
  { apply Forall_forall. intros r Hr Hid.
    assert (Hin : In r (List.filter (fun r => cfg_id r =? id) (rows t))).
    { apply filter_In. split; [apply list_elem_of_In, Hr|apply Z.eqb_eq, Hid]. }
    rewrite E in Hin. destruct rest; [|simpl in Hone; lia].
    destruct Hin as [<-|[]]. exact Er0. }
  rewrite (choice_after_delete _ _ Hall).
  destruct (List.filter is_default (List.filter is_active (map cfg (rows t))))
    as [|d ds] eqn:Ed; [|reflexivity].
  exfalso. unfold configs in Hc.
  assert (Hin : In c (List.filter is_default
                        (List.filter is_active (map cfg (rows t))))).
  { apply filter_In. split; [|exact Hdef].
    apply filter_In. split; [apply list_elem_of_In, Hc|exact Hact]. }
  rewrite Ed in Hin. destruct Hin.
Qed.

(** An update that marks as default an id that is not in the table answers
    404, and yet it has taken the default flag from every row. *)
Theorem update_missing_clears_defaults t id b :
  Forall (fun r => cfg_id r <> id) (rows t) ->
  b_is_default b = true ->
  (update t id b).2 = ConfigNotFound
  /\ map cfg_id (rows (update t id b).1) = map cfg_id (rows t)
  /\ Forall (fun r => is_default (cfg r) = false) (rows (update t id b).1).
Proof.
  intros Hmiss Hd. unfold update. rewrite Hd.
  assert (Hrows : map (fun r => if cfg_id r =? id then r else unset_default r)
                    (rows t)
                  = map unset_default (rows t)).
  { induction Hmiss as [|x l Hx _ IH]; simpl; [reflexivity|].
    rewrite IH. destruct (Z.eqb_spec (cfg_id x) id); [contradiction|reflexivity]. }
  rewrite Hrows.
  assert (Hnone : List.filter (fun r => cfg_id r =? id)
                    (map unset_default (rows t)) = []).
  { clear Hrows. induction Hmiss as [|x l Hx _ IH]; simpl; [reflexivity|].
    destruct (Z.eqb_spec (cfg_id x) id); [contradiction|exact IH]. }
  rewrite Hnone. cbn [fst snd rows]. split; [reflexivity|].
  split; [apply map_id_unset|].
  apply Forall_forall. intros r Hr.
  apply list_elem_of_fmap in Hr. destruct Hr as (x & -> & _). reflexivity.
Qed.

(** *** A table with a default and another active row *)

Definition two_configs : table :=
  {| rows := [{| cfg_id := 1; cfg_name := js "main";
                 cfg := plain_config (js "openai") |};
              {| cfg_id := 2; cfg_name := js "local";
                 cfg := {| provider := js "ollama"; model := js "llama";
                           api_key := []; base_url := [];
                           is_active := true; is_default := false;
                           config := ∅ |} |}];
     next_id := 3 |}.

Definition gemini_body : config_body :=
  {| b_name := js "g"; b_provider := js "gemini"; b_model := js "pro";
     b_api_key := js "k"; b_base_url := []; b_is_active := true;
     b_is_default := true; b_config := None |}.

Lemma two_configs_wf : table_wf two_configs.
Proof.
  split; [|split].
  - repeat constructor; intros H; repeat (apply elem_of_cons in H as [H|H]);
      try discriminate; inversion H.
  - repeat constructor.
  - vm_compute. lia.
Defined.

Lemma table_wf_kept_witness :
  table_wf two_configs
  /\ table_wf (create two_configs gemini_body).1
  /\ table_wf (update two_configs 2 gemini_body).1
  /\ table_wf (delete two_configs 2).1.
Proof.
  split; [exact two_configs_wf|].
  apply (table_wf_kept two_configs gemini_body 2 two_configs_wf).
Defined.

Lemma created_default_is_chosen_witness :
  b_is_active gemini_body = true /\ b_is_default gemini_body = true
  /\ getActiveLLMConfig (configs two_configs)
     = Some (plain_config (js "openai"))
  /\ getActiveLLMConfig (configs (create two_configs gemini_body).1)
     = Some (of_body gemini_body).
Proof.
  split; [reflexivity|]. split; [reflexivity|]. split; [reflexivity|].
  apply (created_default_is_chosen two_configs gemini_body); reflexivity.
Defined.

Lemma delete_keeps_choice_witness :
  table_wf two_configs
  /\ (delete two_configs 2).2 = AdminNoContent
  /\ getActiveLLMConfig (configs (delete two_configs 2).1)
     = getActiveLLMConfig (configs two_configs).
Proof.
  split; [exact two_configs_wf|]. split; [reflexivity|].
  apply (delete_keeps_choice two_configs 2 two_configs_wf).
  exists (plain_config (js "openai")). split; [left|split; reflexivity].
Defined.

Lemma update_missing_clears_defaults_witness :
  Forall (fun r => cfg_id r <> 9) (rows two_configs)
  /\ b_is_default gemini_body = true
  /\ (update two_configs 9 gemini_body).2 = ConfigNotFound
  /\ Forall (fun r => is_default (cfg r) = false)
       (rows (update two_configs 9 gemini_body).1).
Proof.
  assert (H : Forall (fun r => cfg_id r <> 9) (rows two_configs))
    by (repeat constructor; discriminate).
  destruct (update_missing_clears_defaults two_configs 9 gemini_body H eq_refl)
    as (H1 & _ & H2).
  split; [exact H|]. split; [reflexivity|]. split; [exact H1|exact H2].
Defined.

End AdminConfigs.

(** ** Adding and deleting sources ([POST /text/:notebookId],
    [DELETE /:id], routes/sources.js) *)
Module SourceRoutes.
Import JS JSVal VectorStore LLM Chunker Ingest.

Inductive route_response : Type :=
  | RouteError (status : Z) (error : jsstring)
  | Created (s : source)
  | Message (m : jsstring).

(** ['Texto sin titulo'], with its accent. *)
Definition untitled_text : jsstring :=
  js "Texto sin t" ++ [237%N] ++ js "tulo".

Section Routes.

Context (vector : Type) (cosine_distance : vector -> vector -> Q)
  (generateEmbeddings : jsstring -> option vector)
  (transport : provider_request -> option jsstring)
  (extractTextFromPDF extractTextFromFile extractTextFromWebsite :
     jsstring -> option jsstring)
  (basename : jsstring -> jsstring).

Local Abbreviation run_of :=
  (processDocument vector generateEmbeddings transport extractTextFromPDF
     extractTextFromFile extractTextFromWebsite basename).
Local Abbreviation text_of :=
  (extracted_text vector extractTextFromPDF extractTextFromFile
     extractTextFromWebsite basename).

(** The tables of the ingestion, the owners of the notebooks and the
    sequence of source ids. *)
Record store : Type := {
  owners : list Chat.notebook;
  tables : state vector;
  next_source_id : ident
}.

(** [SELECT id FROM notebooks WHERE id = $1 AND user_id = $2] *)
Definition owned (db : store) (notebookId userId : ident) : bool :=
  match List.filter
          (fun n => (Chat.nb_id n =? notebookId)
                    && (Chat.nb_user_id n =? userId))
          (owners db)
  with
  | [] => false
  | _ :: _ => true
  end.

Definition with_sources (db : store) (l : list source) : state vector :=
  {| sources := l; notebooks := notebooks vector (tables db);
     llm_configs := llm_configs vector (tables db);
     documents := documents (tables db);
     next_document_id := next_document_id vector (tables db) |}.

(** [router.post('/text/:notebookId')], up to the start of the background
    processing. *)
Definition post_text (db : store) (userId notebookId : ident)
  (title content : jsstring) : store * route_response :=
  if negb (truthy_str content) then
    (db, RouteError 400 (js "El contenido es requerido"))
  else if negb (owned db notebookId userId) then
    (db, RouteError 404 (js "Cuaderno no encontrado"))
  else
    let s := {| src_id := next_source_id db; src_notebook_id := notebookId;
                src_title := Dispatch.str_or title untitled_text;
                src_type := js "text"; src_content := content;
                src_file_path := []; src_url := []; src_summary := [];
                processing_status := js "processing" |} in
    ({| owners := owners db;
        tables := with_sources db (sources (tables db) ++ [s]);
        next_source_id := next_source_id db + 1 |},
     Created s).

(** [SELECT s.* FROM sources s JOIN notebooks n ON s.notebook_id = n.id
     WHERE s.id = $1 AND n.user_id = $2] *)
Definition sourceCheck (db : store) (id userId : ident) : list source :=
  List.filter
    (fun s => (src_id s =? id) && owned db (src_notebook_id s) userId)
    (sources (tables db)).

(** [router.delete('/:id')]; the removal of the uploaded file is outside
    the tables. *)
Definition delete_source (db : store) (userId id : ident)
  : store * route_response :=
  match sourceCheck db id userId with
  | [] => (db, RouteError 404 (js "Fuente no encontrada"))
  | _ :: _ =>
      ({| owners := owners db;
          tables :=
            {| sources :=
                 List.filter (fun s => negb (src_id s =? id))
                   (sources (tables db));
               notebooks := notebooks vector (tables db);
               llm_configs := llm_configs vector (tables db);
               documents :=
                 VectorStoreWrites.deleteDocumentsBySourceId vector
                   (documents (tables db)) id;
               next_document_id := next_document_id vector (tables db) |};
          next_source_id := next_source_id db |},
       Message (js "Fuente eliminada exitosamente"))
  end.

Lemma find_new_source (l : list source) (s : source) (st0 : store) :
  Forall (fun x => src_id x < src_id s) l ->
  find_source vector (with_sources st0 (l ++ [s])) (src_id s) = Some s.
Proof.
  intros Hl. unfold find_source, with_sources. cbn [sources].
  rewrite List.filter_app. cbn [List.filter]. rewrite Z.eqb_refl.
  replace (List.filter (fun x => src_id x =? src_id s) l) with (@nil source);
    [reflexivity|].
  symmetry. induction Hl as [|x l Hx _ IH]; simpl; [reflexivity|].
  destruct (Z.eqb_spec (src_id x) (src_id s)); [lia|exact IH].
Qed.

(** A text of at most 1000 characters added through the text route and
    then processed, with an embedding provider that accepts it: the text is
    taken from the request itself, the run ends [completed], and exactly
    one document is added, holding the whole text with chunk index 0. *)
Theorem short_text_source_ingested (db : store) userId notebookId title
  content db' s e :
  Forall (fun x => src_id x < next_source_id db) (sources (tables db)) ->
  post_text db userId notebookId title content = (db', Created s) ->
  str_length content <= default_maxChunkSize ->
  generateEmbeddings content = Some e ->
  text_of (tables db') (src_id s) = Some content
  /\ status_log (run_of (tables db') (src_id s)) = [completed]
  /\ documents (final (run_of (tables db') (src_id s)))
     = documents (tables db)
       ++ [{| id := next_document_id vector (tables db); content := content;
              meta := {| notebook_id := notebookId; source_id := src_id s;
                         source_title := Some (src_title s);
                         source_type := Some (js "text");
                         chunk_index := 0;
                         notebook_title :=
                           notebook_title_of vector (tables db) notebookId |};
              embedding := e |}].
Proof.
  intros Hids. unfold post_text.
  destruct content as [|c content']; [discriminate|]. cbn [truthy_str negb].
  destruct (owned db notebookId userId); [|discriminate]. cbn [negb].
  intros [= <- <-] Hshort He. cbn [tables src_id].
  set (content := c :: content') in *.
  set (s := {| src_id := next_source_id db; src_notebook_id := notebookId;
               src_title := Dispatch.str_or title untitled_text;
               src_type := js "text"; src_content := content;
               src_file_path := []; src_url := []; src_summary := [];
               processing_status := js "processing" |}).
  pose proof (find_new_source (sources (tables db)) s db Hids) as Hfind.
  change (src_id s) with (next_source_id db) in Hfind.
  assert (Hextract : extract extractTextFromPDF extractTextFromFile
                       extractTextFromWebsite basename s = Some content).
  { unfold extract. cbn [src_type src_content].
    rewrite bool_decide_eq_false_2 by discriminate.
    rewrite bool_decide_eq_true_2 by reflexivity. reflexivity. }
  assert (Hchunks : chunks_of content = [content]).
  { unfold chunks_of. rewrite ChunkerFacts.split_short by exact Hshort.
    reflexivity. }
  split; [|split].
  - unfold extracted_text. rewrite Hfind. cbn [mbind option_bind]. exact Hextract.
  - unfold processDocument, try_block. rewrite Hfind, Hextract, Hchunks.
    cbn [insert_chunks]. unfold insertDocument. rewrite He. reflexivity.
  - unfold processDocument, try_block. rewrite Hfind, Hextract, Hchunks.
    cbn [insert_chunks]. unfold insertDocument. rewrite He. reflexivity.
Qed.

(** Deleting a source as its owner removes its row and every document of
    it, and keeps every other source row and every document of another
    source; a request for a source that is not the user's answers 404 and
    changes nothing. *)
Theorem delete_source_effect (db : store) userId id :
  match sourceCheck db id userId with
  | [] => delete_source db userId id
          = (db, RouteError 404 (js "Fuente no encontrada"))
  | _ :: _ =>
      let db' := (delete_source db userId id).1 in
      (forall s, s ∈ sources (tables db')
                 <-> s ∈ sources (tables db) /\ src_id s <> id)
      /\ (forall d, d ∈ documents (tables db')
                    <-> d ∈ documents (tables db)
                        /\ source_id (meta d) <> id)
  end.
Proof.
  unfold delete_source.
  destruct (sourceCheck db id userId) as [|s0 rest]; [reflexivity|].
  cbn [fst tables sources documents]. split.
  - intros s. rewrite list_elem_of_In, filter_In, negb_true_iff, Z.eqb_neq,
      <- list_elem_of_In. reflexivity.
  - intros d. unfold VectorStoreWrites.deleteDocumentsBySourceId.
    rewrite list_elem_of_In, filter_In, negb_true_iff, Z.eqb_neq,
      <- list_elem_of_In. reflexivity.
Qed.

End Routes.

(** *** A short note added to the greeting notebook *)

Definition note_store : store Z :=
  {| owners := [{| Chat.nb_id := 1; Chat.nb_user_id := 7 |}];
     tables := hello_state;
     next_source_id := 2 |}.

Definition note_source : source :=
  {| src_id := 2; src_notebook_id := 1; src_title := untitled_text;
     src_type := js "text"; src_content := js "A short note.";
     src_file_path := []; src_url := []; src_summary := [];
     processing_status := js "processing" |}.

Lemma short_text_source_ingested_witness :
  Forall (fun x => src_id x < next_source_id Z note_store)
    (sources (tables Z note_store))
  /\ (post_text Z note_store 7 1 [] (js "A short note.")).2
     = Created note_source
  /\ str_length (js "A short note.") <= default_maxChunkSize
  /\ sample_embed (js "A short note.") = Some 13
  /\ status_log
       (processDocument Z sample_embed no_provider no_reader no_reader
          no_reader (fun p => p)
          (tables Z (post_text Z note_store 7 1 [] (js "A short note.")).1) 2)
     = [completed].
Proof.
  assert (H1 : Forall (fun x => src_id x < next_source_id Z note_store)
                 (sources (tables Z note_store))) by (repeat constructor).
  split; [exact H1|]. split; [reflexivity|].
  split; [vm_compute; discriminate|]. split; [reflexivity|].
  apply (short_text_source_ingested Z sample_embed no_provider no_reader
           no_reader no_reader (fun p => p) note_store 7 1 []
           (js "A short note.") _ note_source 13 H1);
    [reflexivity|vm_compute; discriminate|reflexivity].
Defined.

End SourceRoutes.

(** ** Deleting a notebook ([DELETE /:id], routes/notebooks.js) *)
Module NotebookRoutes.
Import JS JSVal VectorStore LLM Chat.

Section Routes.

Context (vector : Type) (cosine_distance : vector -> vector -> Q)
  (generateEmbeddings : jsstring -> option vector)
  (transport : provider_request -> option jsstring)
  (stringify : processed -> jsstring).

Local Abbreviation turn :=
  (send vector cosine_distance generateEmbeddings transport stringify).

(** [router.delete('/:id')]: the documents of the notebook, then its row
    (what the schema cascades to is not part of the handler). *)
Definition delete_notebook (db : database vector) (userId id : ident)
  : database vector * ChatHistory.history_response :=
  if bool_decide (notebookCheck db id userId = []) then
    (db, ChatHistory.HistoryError 404 (js "Cuaderno no encontrado"))
  else
    ({| notebooks :=
          List.filter (fun n => negb (nb_id n =? id)) (notebooks db);
        sources := sources db;
        documents :=
          VectorStoreWrites.deleteDocumentsByNotebookId vector
            (documents db) id;
        llm_configs := llm_configs db;
        chat_histories := chat_histories db;
        next_chat_id := next_chat_id db |},
     ChatHistory.HistoryMessage (js "Cuaderno eliminado exitosamente")).

(** After its owner deletes a notebook, a search in it returns no row, and
    a chat turn against it, by anyone, is answered 404 and writes nothing;
    a delete request by someone who does not own the notebook changes
    nothing. *)
Theorem delete_notebook_effect (db : database vector) userId id :
  (notebookCheck db id userId = [] ->
   (delete_notebook db userId id).1 = db)
  /\ (notebookCheck db id userId <> [] ->
      let db' := (delete_notebook db userId id).1 in
      (forall query limit,
         searchDocuments vector cosine_distance generateEmbeddings
           (documents db') query id limit
         = match generateEmbeddings query with
           | Some _ => Some []
           | None => None
           end)
      /\ forall user content,
           content <> [] ->
           out_response (turn db' user id content) = NotebookNotFound
           /\ out_db (turn db' user id content) = db').
Proof.
  unfold delete_notebook. split.
  - intros H. rewrite bool_decide_eq_true_2 by exact H. reflexivity.
  - intros H. rewrite bool_decide_eq_false_2 by exact H. cbn [fst]. split.
    + intros query limit. unfold searchDocuments.
      unfold VectorStoreWrites.deleteDocumentsByNotebookId. cbn [documents].
      destruct (generateEmbeddings query) as [q|]; [|reflexivity].
      rewrite VectorStoreWrites.filter_filter_none.
      * simpl. rewrite take_nil. reflexivity.
      * unfold in_notebook. intros d ->. reflexivity.
    + intros user content Hc.
      match goal with |- context [turn ?d _ _ _] => set (db' := d) end.
      assert (Hgone : notebookCheck db' id user = []).
      { unfold notebookCheck. subst db'. cbn [notebooks].
        apply VectorStoreWrites.filter_filter_none.
        intros n Hn. apply andb_true_iff in Hn. destruct Hn as [-> _].
        reflexivity. }
      unfold send.
      destruct content as [|c content']; [congruence|]. cbn [truthy_str negb].
      rewrite bool_decide_eq_true_2 by exact Hgone. split; reflexivity.
Qed.

End Routes.

Lemma delete_notebook_effect_witness :
  notebookCheck ChatHistory.completed_db 1 7 <> []
  /\ out_response
       (send Z sample_distance sample_embed sample_transport sample_stringify
          (delete_notebook Z ChatHistory.completed_db 7 1).1 7 1 (js "alpha"))
     = NotebookNotFound.
Proof.
  split; [exact ChatHistory.completed_db_owned|].
  destruct (delete_notebook_effect Z sample_distance sample_embed
              sample_transport sample_stringify ChatHistory.completed_db 7 1)
    as [_ H].
  destruct (H ChatHistory.completed_db_owned) as [_ Hturn].
  apply (Hturn 7 (js "alpha")). discriminate.
Defined.

End NotebookRoutes.

(** ** The summary of a source ([generateSummary], documentProcessor.js) *)
Module Summary.
Import JS JSVal VectorStore LLM Ingest.

Section Summaries.

Context (vector : Type) (transport : provider_request -> option jsstring).

(** The two messages [generateSummary] builds. *)
Definition summary_messages (extracted : jsstring)
  : list (gmap string jsval) :=
  [ <["role" := JStr (js "system")]>
      (<["content" := JStr summary_instruction]> ∅);
    <["role" := JStr (js "user")]>
      (<["content" := JStr (substring extracted 0 5000)]> ∅) ].

(** [generateSummary] never fails.  It gives the provider's answer when a
    request could be built and answered, and the fixed placeholder
    otherwise.  The request holds two messages: the instruction, sent with
    the role ['assistant'] (['model'] for Gemini) and not as a system
    message, and the first 5000 characters of the text with the role
    ['user']; unless the chosen provider is OpenAI or Anthropic and its
    stored configuration has a [messages] entry, which is then sent in
    their place. *)
Theorem summary_request_shape (st : state vector) extracted :
  generateSummary vector transport st extracted
  = match chat_request (llm_configs vector st) (summary_messages extracted) ∅
    with
    | Some rq => default summary_placeholder (transport rq)
    | None => summary_placeholder
    end
  /\ forall rq,
       chat_request (llm_configs vector st) (summary_messages extracted) ∅
       = Some rq ->
       exists cfg,
         getActiveLLMConfig (llm_configs vector st) = Some cfg
         /\ rq_provider rq = provider cfg
         /\ rq_messages rq
            = match Chat.stored_messages cfg with
              | Some v => Stored v
              | None =>
                  Formatted
                    [(Chat.neutral_role (provider cfg),
                      JStr summary_instruction);
                     (js "user", JStr (take 5000 extracted))]
              end.
Proof.
  split.
  - unfold generateSummary, generateChatResponse, chat_request,
      summary_messages.
    cbv zeta.
    destruct (getActiveLLMConfig _) as [cfg|]; cbn [mbind option_bind];
      [|reflexivity].
    destruct (build_request cfg _ _) as [rq|]; cbn [mbind option_bind];
      [|reflexivity].
    destruct (transport rq) as [answer|]; reflexivity.
  - intros rq Hrq.
    destruct (Chat.chat_request_messages _ _ _ _ Hrq) as (cfg & Hcfg & Hp & Hm).
    exists cfg. split; [exact Hcfg|]. split; [exact Hp|].
    rewrite Hm. unfold summary_messages. cbn [map].
    rewrite (Chat.substring_prefix extracted 5000) by lia.
    reflexivity.
Qed.

End Summaries.
End Summary.
